(** * Neo4jModelService: statement builders, pagination, search scoring

    A shallow embedding of [src/lib/service/neo4j.model.service.ts]: the
    generic model service that builds Cypher statements for a node label,
    sends them through the [Neo4jService] collaborator and maps the rows
    it gets back.

    Two languages meet in that file.  The TypeScript part builds strings
    and parameter objects; it is embedded as functions on [string] and on
    association lists.  The Cypher part is the text of the statements; the
    fragments whose meaning the properties below depend on (the candidate
    filter and the score of [searchBy], the node patterns of [CREATE] and
    [MERGE]) are embedded as functions on a small model of the property
    graph.  [runCypherConstraints] is left out: no property below is about
    it.

    [src/lib/neo4j.module.ts] is embedded further down: how a configuration
    object becomes the arguments of the driver's constructor
    ([createDriver], [createNeptuneDriver], [forRoot], [forRootAsync]);
    the request signing of [signedHeader] is a parameter there. *)

From Stdlib Require Import String Ascii List ZArith QArith Lia Bool.
From Stdlib Require Import DecimalString DecimalPos DecimalZ.
From Stdlib Require Import Permutation Sorted.
Import ListNotations.

Local Open Scope Z_scope.
Local Open Scope list_scope.
Local Open Scope string_scope.

(* ===================================================================== *)
(** ** Strings *)
(* ===================================================================== *)

(** The double quote and the line feed, written by their codes. *)
Definition dquote : ascii := "034"%char.
Definition newline : ascii := "010"%char.
Definition nl : string := String newline EmptyString.

(** [Array.prototype.join(",")]: what a template literal does to an array
    it interpolates. *)
Definition join_comma (parts : list string) : string := String.concat "," parts.

(** [apoc.text.join(list, '')]. *)
Definition text_join (parts : list string) : string := String.concat "" parts.

(** JavaScript truthiness of a string: every string but the empty one. *)
Definition truthy (s : string) : bool := negb (s =? "").

(** Cypher's [w CONTAINS t]: [t] occurs in [w] as a substring
    (case-sensitive). *)
Fixpoint contains (w t : string) : bool :=
  String.prefix t w ||
  match w with
  | EmptyString => false
  | String _ w' => contains w' t
  end.

(** Cypher's [split(s, ' ')]: the segments of [s] between occurrences of
    the delimiter, empty segments included. *)
Fixpoint split (sep : ascii) (s : string) : list string :=
  match s with
  | EmptyString => [EmptyString]
  | String c s' =>
      if Ascii.eqb c sep then EmptyString :: split sep s'
      else
        match split sep s' with
        | w :: ws => String c w :: ws
        | [] => [String c EmptyString]
        end
  end.

(* ===================================================================== *)
(** ** Property values and [JSON.stringify] *)
(* ===================================================================== *)

(** A property value is a string, a number or a boolean, or an array of
    those.  Numbers are the integers that JavaScript prints in plain
    decimal notation (those below 10^21 in magnitude; beyond, it switches
    to the exponent notation) and the two infinities, which
    [JSON.stringify] writes as [null].  Fractions and NaN are left out;
    NaN is a number the database holds equal to nothing, itself included.
    Strings are sequences of bytes. *)
Inductive scalar : Type :=
| SStr (s : string)
| SNum (n : Z)
| SBool (b : bool)
| SInfinity (negative : bool).

Inductive value : Type :=
| VScalar (x : scalar)
| VArray (xs : list scalar).

Definition scalar_eqb (x y : scalar) : bool :=
  match x, y with
  | SStr a, SStr b => (a =? b)%string
  | SNum a, SNum b => (a =? b)%Z
  | SBool a, SBool b => Bool.eqb a b
  | SInfinity a, SInfinity b => Bool.eqb a b
  | _, _ => false
  end.

Fixpoint scalars_eqb (xs ys : list scalar) : bool :=
  match xs, ys with
  | [], [] => true
  | x :: xs', y :: ys' => scalar_eqb x y && scalars_eqb xs' ys'
  | _, _ => false
  end.

Definition value_eqb (v w : value) : bool :=
  match v, w with
  | VScalar x, VScalar y => scalar_eqb x y
  | VArray xs, VArray ys => scalars_eqb xs ys
  | _, _ => false
  end.

Definition hex_digit (n : nat) : ascii :=
  if Nat.ltb n 10 then ascii_of_nat (48 + n) else ascii_of_nat (87 + n).

(** One character of a JSON string: the two-character escapes, the
    [\u00XX] form for the other control characters, the character itself
    otherwise. *)
Definition json_escape_char (c : ascii) : string :=
  let n := nat_of_ascii c in
  if Nat.eqb n 34 then String "\" (String dquote EmptyString)
  else if Nat.eqb n 92 then "\\"
  else if Nat.eqb n 8 then "\b"
  else if Nat.eqb n 12 then "\f"
  else if Nat.eqb n 10 then "\n"
  else if Nat.eqb n 13 then "\r"
  else if Nat.eqb n 9 then "\t"
  else if Nat.ltb n 32 then
    "\u00" ++ String (hex_digit (Nat.div n 16)) (String (hex_digit (Nat.modulo n 16)) EmptyString)
  else String c EmptyString.

Fixpoint json_escape (s : string) : string :=
  match s with
  | EmptyString => EmptyString
  | String c s' => json_escape_char c ++ json_escape s'
  end.

Definition json_quote (s : string) : string :=
  String dquote (json_escape s ++ String dquote EmptyString).

(** The reading that undoes [json_escape_char]: the character a text
    begins with, and the rest of the text. *)
Definition hex_value (c : ascii) : nat :=
  let n := nat_of_ascii c in
  if Nat.ltb n 58 then Nat.sub n 48 else Nat.sub n 87.

Definition unescape_head (s : string) : option (ascii * string) :=
  match s with
  | EmptyString => None
  | String c rest =>
      if Nat.eqb (nat_of_ascii c) 92 then
        match rest with
        | EmptyString => None
        | String d rest' =>
            let n := nat_of_ascii d in
            if Nat.eqb n 34 then Some (dquote, rest')
            else if Nat.eqb n 92 then Some (d, rest')
            else if Nat.eqb n 98 then Some (ascii_of_nat 8, rest')
            else if Nat.eqb n 102 then Some (ascii_of_nat 12, rest')
            else if Nat.eqb n 110 then Some (ascii_of_nat 10, rest')
            else if Nat.eqb n 114 then Some (ascii_of_nat 13, rest')
            else if Nat.eqb n 116 then Some (ascii_of_nat 9, rest')
            else
              match rest' with
              | String _ (String _ (String h1 (String h2 rest''))) =>
                  Some (ascii_of_nat (Nat.add (Nat.mul 16 (hex_value h1)) (hex_value h2)), rest'')
              | _ => None
              end
        end
      else Some (c, rest)
  end.

Definition is_digit (c : ascii) : bool :=
  let n := nat_of_ascii c in Nat.leb 48 n && Nat.leb n 57.

Fixpoint all_digits (s : string) : bool :=
  match s with
  | EmptyString => true
  | String c s' => is_digit c && all_digits s'
  end.

(** A text that does not go on with a digit: what follows a literal in a
    statement. *)
Definition stops_number (r : string) : Prop :=
  match r with
  | EmptyString => True
  | String c _ => is_digit c = false
  end.

(** The decimal notation of an integer. *)
Definition json_number (n : Z) : string := NilZero.string_of_int (Z.to_int n).

(** [JSON.stringify] has no notation for a number that is not finite: it
    writes [null]. *)
Definition stringify_scalar (x : scalar) : string :=
  match x with
  | SStr s => json_quote s
  | SNum n => json_number n
  | SBool true => "true"
  | SBool false => "false"
  | SInfinity _ => "null"
  end.

(** [JSON.stringify(v)] for a property value. *)
Definition JSON_stringify (v : value) : string :=
  match v with
  | VScalar x => stringify_scalar x
  | VArray xs => "[" ++ join_comma (map stringify_scalar xs) ++ "]"
  end.

(* ===================================================================== *)
(** ** Property bags *)
(* ===================================================================== *)

(** A [Record<string, any>]: the own enumerable properties of the object,
    in the order [Object.keys] lists them.  A JavaScript object holds each
    key once, so a bag that stands for one has no repeated key ([wf_bag]). *)
Definition bag : Type := list (string * value).

Definition Object_keys (o : bag) : list string := map fst o.

Definition wf_bag (o : bag) : Prop := NoDup (Object_keys o).

(** [o[k]]: [None] is JavaScript's [undefined]. *)
Fixpoint get (o : bag) (k : string) : option value :=
  match o with
  | [] => None
  | (k', v) :: o' => if (k' =? k)%string then Some v else get o' k
  end.

(** [o[k] = v] on a plain object: an existing key keeps its place, a new
    one goes last. *)
Fixpoint define (o : bag) (k : string) (v : value) : bag :=
  match o with
  | [] => [(k, v)]
  | (k', v') :: o' =>
      if (k' =? k)%string then (k, v) :: o' else (k', v') :: define o' k v
  end.

(** The object spread [{ ...t }]: a fresh object that receives the own
    enumerable properties of [t] one after the other. *)
Definition spread (t : bag) : bag :=
  fold_left (fun target kv => define target (fst kv) (snd kv)) t [].

(** ['`' + k + '`:' + JSON.stringify(props[k])]; concatenating
    [undefined] to a string gives the text [undefined]. *)
Definition literal_entry (props : bag) (k : string) : string :=
  "`" ++ k ++ "`:" ++
  match get props k with
  | Some v => JSON_stringify v
  | None => "undefined"
  end.

(** ['`' + k + '`:$props.`' + k + '`']. *)
Definition bound_entry (k : string) : string :=
  "`" ++ k ++ "`:$props.`" ++ k ++ "`".


(* ===================================================================== *)
(** ** The driver's 64-bit integers and the pagination normalizer *)
(* ===================================================================== *)

(** The driver's [Integer]: a 64-bit two's-complement number kept as two
    signed 32-bit words.  [neo4j.int] belongs to the database driver, not
    to this repository; it is embedded as the driver defines the
    conversion from a number, here from an integer: values beyond the
    64-bit range go to the nearest bound, the others are stored exactly
    (for a negative number the words of its two's complement, which are
    the floored quotient and remainder by 2^32). *)
Record Integer : Type := { low : Z; high : Z }.

(** The [| 0] coercion to a signed 32-bit word. *)
Definition to_int32 (z : Z) : Z := (z + 2 ^ 31) mod 2 ^ 32 - 2 ^ 31.

Definition Integer_fromBits (lo hi : Z) : Integer :=
  {| low := to_int32 lo; high := to_int32 hi |}.

Definition Integer_MIN_VALUE : Integer := Integer_fromBits 0 (- 2 ^ 31).
Definition Integer_MAX_VALUE : Integer := Integer_fromBits (2 ^ 32 - 1) (2 ^ 31 - 1).

(** The numbers 64 bits hold. *)
Definition int64_range (z : Z) : Prop := - 2 ^ 63 <= z < 2 ^ 63.

(** The number an [Integer] stands for. *)
Definition Integer_value (i : Integer) : Z := high i * 2 ^ 32 + low i mod 2 ^ 32.

(** [Integer.toInt()]: the low word. *)
Definition Integer_toInt (i : Integer) : Z := low i.

Definition neo4j_int (n : Z) : Integer :=
  if (n <=? - 2 ^ 63)%Z then Integer_MIN_VALUE
  else if (2 ^ 63 <=? n + 1)%Z then Integer_MAX_VALUE
  else Integer_fromBits (n mod 2 ^ 32) (n / 2 ^ 32).

(** The part of a parameter object the normalizer reads: [skip?] and
    [limit?], [None] for a key that is absent (or [undefined]).  The
    bounds are integers here; the normalizer on the numbers that are not
    comes further down. *)
Record SkipLimit : Type := { skip : option Z; limit : option Z }.

(** [x || d] on an optional number: [undefined] and [0] are falsy. *)
Definition or_default (x : option Z) (d : Z) : Z :=
  match x with
  | Some n => if (n =? 0)%Z then d else n
  | None => d
  end.

(** [params?.skip], [params?.limit]. *)
Definition opt_skip (params : option SkipLimit) : option Z :=
  match params with Some p => skip p | None => None end.
Definition opt_limit (params : option SkipLimit) : option Z :=
  match params with Some p => limit p | None => None end.

Record SkipLimitInt : Type := { skip_int : Integer; limit_int : Integer }.

Definition _convertSkipLimit (params : option SkipLimit) : SkipLimitInt :=
  {| skip_int := neo4j_int (or_default (opt_skip params) 0);
     limit_int := neo4j_int (or_default (opt_limit params) 10) |}.

(** *** The normalizer on every number *)

(** The operations below are handed integers for bounds, and
    [_convertSkipLimit] above is the normalizer on those.  The type
    [number] of the source holds more: a JavaScript number is a finite
    one, which is a rational (every double is one), or NaN, or one of the
    two infinities. *)
Inductive number : Type :=
| Finite (q : Q)
| NaN
| Infinity (negative : bool).

(** The falsy numbers: zero and NaN. *)
Definition falsy (x : number) : bool :=
  match x with
  | Finite q => (Qnum q =? 0)%Z
  | NaN => true
  | Infinity _ => false
  end.

(** The integer part of a finite number: a fraction is rounded toward
    zero. *)
Definition truncate (q : Q) : Z := Z.quot (Qnum q) (Z.pos (Qden q)).

Definition Integer_ZERO : Integer := Integer_fromBits 0 0.

(** [neo4j.int] on a number, as the driver defines [Integer.fromNumber]:
    zero for NaN and for the infinities; a finite number is compared with
    the two bounds and its words are made with [| 0], which drops the
    fraction, so that it is converted as its integer part is. *)
Definition Integer_fromNumber (x : number) : Integer :=
  match x with
  | Finite q => neo4j_int (truncate q)
  | NaN => Integer_ZERO
  | Infinity _ => Integer_ZERO
  end.

Record NumberSkipLimit : Type := {
  skip_number : option number;
  limit_number : option number
}.

(** [x || d] on an optional number. *)
Definition number_or_default (x : option number) (d : Z) : number :=
  match x with
  | Some n => if falsy n then Finite (inject_Z d) else n
  | None => Finite (inject_Z d)
  end.

Definition _convertSkipLimit_number (params : option NumberSkipLimit) : SkipLimitInt :=
  {| skip_int :=
       Integer_fromNumber
         (number_or_default (match params with Some p => skip_number p | None => None end) 0);
     limit_int :=
       Integer_fromNumber
         (number_or_default (match params with Some p => limit_number p | None => None end) 10) |}.

(** Integer bounds, as the numbers they are. *)
Definition integer (n : Z) : number := Finite (inject_Z n).


(** The parameter object [{ skip: s, limit: l }]. *)
Definition bounds (s l : option number) : option NumberSkipLimit :=
  Some {| skip_number := s; limit_number := l |}.

(* ===================================================================== *)
(** ** Statements *)
(* ===================================================================== *)

Record SessionOptions : Type := { write : bool }.

(** A bound parameter: the property bag of [create], [merge] and
    [delete], a pagination bound, or the search terms. *)
Inductive param : Type :=
| PProps (props : bag)
| PInt (i : Integer)
| PTerms (terms : list string).

Record Options : Type := {
  params : list (string * param);
  sessionOptions : option SessionOptions
}.

Record Statement : Type := { cypher : string; options : Options }.

(** [{ ..._convertSkipLimit(params) }]. *)
Definition skip_limit_params (sl : SkipLimitInt) : list (string * param) :=
  [("skip", PInt (skip_int sl)); ("limit", PInt (limit_int sl))].

Fixpoint param_get (ps : list (string * param)) (k : string) : option param :=
  match ps with
  | [] => None
  | (k', p) :: ps' => if (k' =? k)%string then Some p else param_get ps' k
  end.

(** The parameter object of [findAll]; [findBy] adds [props] to it. *)
Record PageParams : Type := {
  page : SkipLimit;
  orderBy : option string;
  descending : option bool
}.

Record FindByParams : Type := {
  find_props : bag;
  find_page : PageParams
}.

Record SearchParams : Type := {
  prop : string;
  terms : list string;
  search_page : SkipLimit
}.

(** [orderBy ? ' ORDER BY n.`orderBy`' + (descending ? ' DESC' : '') : '']. *)
Definition order_clause (ob : option string) (desc : option bool) : string :=
  match ob with
  | Some o =>
      if truthy o then
        " ORDER BY n.`" ++ o ++ "`" ++
        match desc with Some true => " DESC" | _ => "" end
      else ""
  | None => ""
  end.

(* ===================================================================== *)
(** ** Rows, the logger and the database service *)
(* ===================================================================== *)

(** What a thrown exception carries. *)
Inductive exn : Type := Error (message : string).

(** The outcome of a call that may throw (or of a promise that may
    reject). *)
Inductive result (A : Type) : Type :=
| Ok (a : A)
| Throw (e : exn).
Arguments Ok {A} a.
Arguments Throw {A} e.

Definition bind {A B : Type} (r : result A) (k : A -> result B) : result B :=
  match r with
  | Ok a => k a
  | Throw e => Throw e
  end.

Notation "x <- r ;; k" := (bind r (fun x => k))
  (at level 61, r at next level, right associativity).
Notation "r ;;; k" := (bind r (fun _ => k))
  (at level 61, right associativity).

(** A column of a result row: a property map ([properties(n)]) or an
    integer (the score). *)
Inductive column : Type :=
| CProps (props : bag)
| CInt (i : Integer).

(** The plain object [Record.toObject()] returns. *)
Definition row : Type := list (string * column).

Record DbRecord : Type := { toObject : row }.

Record QueryResult : Type := { records : list DbRecord }.

Fixpoint row_get (r : row) (k : string) : option column :=
  match r with
  | [] => None
  | (k', c) :: r' => if (k' =? k)%string then Some c else row_get r' k
  end.

(** The argument of a [fromNeo4j(r.column)] call, as the properties a
    hook finds on it.  The statement's RETURN clause names the column and
    binds it to a property map; an [Integer] has its two words for
    properties, and a column the row does not hold is [undefined], on
    which the default hook's spread finds nothing to copy. *)
Definition props_column (r : row) (k : string) : bag :=
  match row_get r k with
  | Some (CProps b) => b
  | Some (CInt i) => [("low", VScalar (SNum (low i))); ("high", VScalar (SNum (high i)))]
  | None => []
  end.

(** [r.score.toInt()]: a missing column makes the method call throw. *)
Definition score_column (r : row) : result Z :=
  match row_get r "score" with
  | Some (CInt i) => Ok (Integer_toInt i)
  | _ => Throw (Error "TypeError")
  end.

(** What is handed to [logger.debug]: the text of an entry message
    ([name + '(' + JSON.stringify(argument) + ')'], kept as the name and
    the argument it is built from), a statement, or the rows of a result. *)
Inductive call_argument : Type :=
| ArgProps (props : bag)
| ArgPage (params : option PageParams)
| ArgFindBy (params : FindByParams)
| ArgSearch (params : SearchParams).

Inductive log_entry : Type :=
| LogCall (name : string) (argument : call_argument)
| LogStatement (cypher : string) (options : Options)
| LogResults (results : list row).

Record Logger : Type := { debug : log_entry -> result unit }.

Record Neo4jService : Type := {
  run : string -> Options -> result QueryResult
}.

(* ===================================================================== *)
(** ** The model service *)
(* ===================================================================== *)

(** An instance of (a subclass of) [Neo4jModelService<T>]: the abstract
    members a subclass supplies, and the two mapping hooks it may
    override.  An absent logger is [None]; an unset [timestamp] is the
    empty string. *)
Record Neo4jModelService (T : Type) : Type := {
  label : string;
  neo4jService : Neo4jService;
  logger : option Logger;
  timestamp : string;
  toNeo4j : bag -> bag;
  fromNeo4j : bag -> T
}.
Arguments label {T} _.
Arguments neo4jService {T} _.
Arguments logger {T} _.
Arguments timestamp {T} _.
Arguments toNeo4j {T} _ _.
Arguments fromNeo4j {T} _ _.

(** The hooks as the base class defines them. *)
Definition default_toNeo4j (t : bag) : bag := spread t.
Definition default_fromNeo4j (model : bag) : bag := spread model.

(** A service that overrides neither hook. *)
Definition base_service (lbl ts : string) (db : Neo4jService) (lg : option Logger)
  : Neo4jModelService bag :=
  {| label := lbl; neo4jService := db; logger := lg; timestamp := ts;
     toNeo4j := default_toNeo4j; fromNeo4j := default_fromNeo4j |}.

Section Service.
Context {T : Type} (self : Neo4jModelService T).

(** [this.logger?.debug(entry)]. *)
Definition logger_debug (entry : log_entry) : result unit :=
  match logger self with
  | Some l => debug l entry
  | None => Ok tt
  end.

Definition _runWithDebug (cypher : string) (options : Options) : result (list row) :=
  logger_debug (LogStatement cypher options) ;;;
  res <- run (neo4jService self) cypher options ;;
  let results := map toObject (records res) in
  logger_debug (LogResults results) ;;;
  Ok results.

Definition createQuery (props : bag) : Statement :=
  {| cypher :=
       "CREATE (n:`" ++ label self ++ "`) SET n=$props " ++
       (if truthy (timestamp self)
        then "SET n.`" ++ timestamp self ++ "` = timestamp() "
        else "") ++
       "RETURN properties(n) AS created";
     options :=
       {| params := [("props", PProps (toNeo4j self props))];
          sessionOptions := Some {| write := true |} |} |}.

Definition create (props : bag) : result (option T) :=
  logger_debug (LogCall "create" (ArgProps props)) ;;;
  let query := createQuery props in
  res <- _runWithDebug (cypher query) (options query) ;;
  Ok match res with
     | r :: _ => Some (fromNeo4j self (props_column r "created"))
     | [] => None
     end.

Definition mergeQuery (props : bag) : Statement :=
  {| cypher :=
       "MERGE (n:`" ++ label self ++ "`{" ++
       join_comma (map bound_entry (Object_keys props)) ++
       "})" ++
       (if truthy (timestamp self)
        then " ON CREATE SET n.`" ++ timestamp self ++ "` = timestamp()"
        else "") ++
       " RETURN properties(n) AS merged";
     options :=
       {| params := [("props", PProps (toNeo4j self props))];
          sessionOptions := Some {| write := true |} |} |}.

Definition merge (props : bag) : result (option T) :=
  logger_debug (LogCall "merge" (ArgProps props)) ;;;
  let query := mergeQuery props in
  res <- _runWithDebug (cypher query) (options query) ;;
  Ok match res with
     | r :: _ => Some (fromNeo4j self (props_column r "merged"))
     | [] => None
     end.

Definition deleteQuery (props : bag) : Statement :=
  {| cypher :=
       "MATCH (n:`" ++ label self ++ "`{" ++
       join_comma (map (literal_entry props) (Object_keys props)) ++
       "}) WITH n, properties(n) AS deleted DELETE n RETURN deleted";
     options :=
       {| params := [("props", PProps (toNeo4j self props))];
          sessionOptions := Some {| write := true |} |} |}.

Definition delete (props : bag) : result (list T) :=
  logger_debug (LogCall "delete" (ArgProps props)) ;;;
  let query := deleteQuery props in
  res <- _runWithDebug (cypher query) (options query) ;;
  Ok (map (fun r => fromNeo4j self (props_column r "deleted")) res).

Definition findAllQuery (params : option PageParams) : Statement :=
  {| cypher :=
       "MATCH (n:`" ++ label self ++ "`) RETURN properties(n) AS matched" ++
       order_clause (match params with Some p => orderBy p | None => None end)
                    (match params with Some p => descending p | None => None end) ++
       " SKIP $skip LIMIT $limit";
     options :=
       {| params := skip_limit_params (_convertSkipLimit (option_map page params));
          sessionOptions := None |} |}.

Definition findAll (params : option PageParams) : result (list T) :=
  logger_debug (LogCall "findAll" (ArgPage params)) ;;;
  let query := findAllQuery params in
  res <- _runWithDebug (cypher query) (options query) ;;
  Ok (map (fun r => fromNeo4j self (props_column r "matched")) res).

Definition findByQuery (params : FindByParams) : Statement :=
  let props := toNeo4j self (find_props params) in
  {| cypher :=
       "MATCH (n:`" ++ label self ++ "`{" ++
       join_comma (map (literal_entry props) (Object_keys props)) ++
       "}) RETURN properties(n) AS matched" ++
       order_clause (orderBy (find_page params)) (descending (find_page params)) ++
       " SKIP $skip LIMIT $limit";
     options :=
       {| params := skip_limit_params (_convertSkipLimit (Some (page (find_page params))));
          sessionOptions := None |} |}.

Definition findBy (params : FindByParams) : result (list T) :=
  logger_debug (LogCall "findBy" (ArgFindBy params)) ;;;
  let query := findByQuery params in
  res <- _runWithDebug (cypher query) (options query) ;;
  Ok (map (fun r => fromNeo4j self (props_column r "matched")) res).

(** The statement [searchBy] sends: the text of its template literal
    (line breaks and indentation as in the source) and its parameters. *)
Definition searchByQuery (params : SearchParams) : Statement :=
  {| cypher :=
       "MATCH (n:`" ++ label self ++ "`) WITH n, split(n.`" ++ prop params ++
       "`, ' ') as words" ++ nl ++
       "    WHERE ANY (term IN $terms WHERE ANY(word IN words WHERE word CONTAINS term))" ++ nl ++
       "    WITH n, words, " ++ nl ++
       "    CASE WHEN apoc.text.join($terms, '') = apoc.text.join(words, '') THEN 100" ++ nl ++
       "    ELSE reduce(s = 0, st IN $terms | s + reduce(s2 = 0, w IN words | CASE WHEN (w = st) THEN (s2 + 4) ELSE CASE WHEN (w CONTAINS st) THEN (s2 +2) ELSE (s2) END END)) END AS score " ++ nl ++
       "    ORDER BY score DESC SKIP $skip LIMIT $limit RETURN properties(n) as matched, score";
     options :=
       {| params :=
            ("terms", PTerms (terms params)) ::
            skip_limit_params (_convertSkipLimit (Some (search_page params)));
          sessionOptions := None |} |}.

(** [res.map(f)] for a callback that may throw. *)
Fixpoint map_result {A B : Type} (f : A -> result B) (l : list A) : result (list B) :=
  match l with
  | [] => Ok []
  | a :: l' => b <- f a ;; bs <- map_result f l' ;; Ok (b :: bs)
  end.

(** The entry message of [searchBy] carries the name [findBy], as in the
    source. *)
Definition searchBy (params : SearchParams) : result (list (T * Z)) :=
  logger_debug (LogCall "findBy" (ArgSearch params)) ;;;
  let query := searchByQuery params in
  res <- _runWithDebug (cypher query) (options query) ;;
  map_result
    (fun r => score <- score_column r ;; Ok (fromNeo4j self (props_column r "matched"), score))
    res.

End Service.

(* ===================================================================== *)
(** ** The property graph: what the statements mean *)
(* ===================================================================== *)

(** A node of the graph: an identity, its labels and its property map. *)
Record node : Type := {
  node_id : nat;
  node_labels : list string;
  node_props : bag
}.

Definition graph : Type := list node.

Definition fresh_id (g : graph) : nat := S (list_max (map node_id g)).

(** [(n:`lbl`)]. *)
Definition has_label (lbl : string) (n : node) : bool :=
  existsb (String.eqb lbl) (node_labels n).

(** [{`k1`: v1, `k2`: v2, ...}] in a node pattern: the node holds every
    listed property with the listed value; properties the pattern does
    not list are not looked at. *)
Definition pattern_match (pattern : bag) (n : node) : bool :=
  forallb
    (fun kv =>
       match get (node_props n) (fst kv) with
       | Some w => value_eqb w (snd kv)
       | None => false
       end)
    pattern.

(** The value bound to [$props]. *)
Definition bound_props (ps : list (string * param)) : option bag :=
  match param_get ps "props" with
  | Some (PProps b) => Some b
  | _ => None
  end.

(** [timestamp()] evaluates to the server's clock, an integer. *)
Definition stamp (ts : string) (now : Z) (props : bag) : bag :=
  if truthy ts then define props ts (VScalar (SNum now)) else props.

(** The statement of [createQuery]:
    [CREATE (n:`lbl`) SET n=$props] (then [SET n.`ts` = timestamp()] when
    the text holds that clause) [RETURN properties(n) AS created].
    The graph after the statement and the node bound to [n]; [None] when
    the statement cannot be run. *)
Definition db_create (lbl ts : string) (ps : list (string * param)) (now : Z) (g : graph)
  : option (graph * list node) :=
  match bound_props ps with
  | None => None
  | Some b =>
      let n := {| node_id := fresh_id g; node_labels := [lbl];
                  node_props := stamp ts now b |} in
      Some ((g ++ [n])%list, [n])
  end.

(** The map [{`k`:$props.`k`, ...}] of a MERGE pattern, for the keys the
    text lists.  A key [$props] does not hold evaluates to null, which
    MERGE refuses. *)
Fixpoint merge_pattern (keys : list string) (b : bag) : option bag :=
  match keys with
  | [] => Some []
  | k :: keys' =>
      match get b k, merge_pattern keys' b with
      | Some v, Some p => Some ((k, v) :: p)
      | _, _ => None
      end
  end.

(** The statement of [mergeQuery]:
    [MERGE (n:`lbl`{...})] (then [ON CREATE SET n.`ts` = timestamp()] when
    the text holds that clause) [RETURN properties(n) AS merged].
    Every node that fits the pattern is bound to [n] and the graph stays
    as it is; when none fits, one node is created from the pattern. *)
Definition db_merge (lbl ts : string) (keys : list string) (ps : list (string * param))
    (now : Z) (g : graph) : option (graph * list node) :=
  match bound_props ps with
  | None => None
  | Some b =>
      match merge_pattern keys b with
      | None => None
      | Some pattern =>
          match filter (fun n => has_label lbl n && pattern_match pattern n) g with
          | [] =>
              let n := {| node_id := fresh_id g; node_labels := [lbl];
                          node_props := stamp ts now (spread pattern) |} in
              Some ((g ++ [n])%list, [n])
          | found => Some (g, found)
          end
      end
  end.

(** *** The search statement *)

(** [split(n.`prop`, ' ') as words]: null for a node without the
    property, the segments of a string value, and a type error (which
    ends the statement) for a value that is no string. *)
Inductive words_value : Type :=
| WordsNull
| Words (words : list string)
| WordsTypeError.

Definition node_words (prop : string) (n : node) : words_value :=
  match get (node_props n) prop with
  | None => WordsNull
  | Some (VScalar (SStr s)) => Words (split " " s)
  | Some _ => WordsTypeError
  end.

(** The property the search reads holds a string wherever a node of the
    label holds it at all. *)
Definition text_property (lbl prop : string) (g : graph) : Prop :=
  forall n, In n g -> has_label lbl n = true -> node_words prop n <> WordsTypeError.

(** [ANY (term IN $terms WHERE ANY(word IN words WHERE word CONTAINS term))]. *)
Definition candidate (terms words : list string) : bool :=
  existsb (fun term => existsb (fun word => contains word term) words) terms.

(** The WHERE clause keeps a row when its predicate is true; over null
    [words] the predicate is null (or false, for no term), never true. *)
Definition survives (terms : list string) (w : words_value) : bool :=
  match w with
  | Words words => candidate terms words
  | _ => false
  end.

(** [CASE WHEN (w = st) THEN (s2 + 4) ELSE CASE WHEN (w CONTAINS st)
    THEN (s2 +2) ELSE (s2) END END]. *)
Definition word_step (st : string) (s2 : Z) (w : string) : Z :=
  if (w =? st)%string then s2 + 4
  else if contains w st then s2 + 2
  else s2.

(** [CASE WHEN apoc.text.join($terms, '') = apoc.text.join(words, '')
    THEN 100 ELSE reduce(s = 0, st IN $terms | s + reduce(s2 = 0, w IN
    words | ...)) END AS score]. *)
Definition score (terms words : list string) : Z :=
  if (text_join terms =? text_join words)%string then 100
  else fold_left (fun s st => s + fold_left (word_step st) words 0) terms 0.

(** [ORDER BY score DESC]: rows of equal score stay in the order they
    came in (the database promises no order among them). *)
Fixpoint insert_by_score (x : node * Z) (l : list (node * Z)) : list (node * Z) :=
  match l with
  | [] => [x]
  | y :: l' =>
      if (snd y <=? snd x)%Z then x :: y :: l' else y :: insert_by_score x l'
  end.

Definition order_by_score_desc (l : list (node * Z)) : list (node * Z) :=
  fold_right insert_by_score [] l.

(** [SKIP $skip LIMIT $limit]; the database refuses a negative bound. *)
Definition skip_limit {A : Type} (sk lim : Z) (l : list A) : option (list A) :=
  if ((sk <? 0) || (lim <? 0))%Z then None
  else Some (firstn (Z.to_nat lim) (skipn (Z.to_nat sk) l)).

Definition bound_terms (ps : list (string * param)) : option (list string) :=
  match param_get ps "terms" with
  | Some (PTerms ts) => Some ts
  | _ => None
  end.

Definition bound_int (ps : list (string * param)) (k : string) : option Z :=
  match param_get ps k with
  | Some (PInt i) => Some (Integer_value i)
  | _ => None
  end.

(** The rows that reach the score: the nodes of the label whose words
    pass the candidate filter. *)
Fixpoint scored (prop : string) (terms : list string) (ns : list node)
  : option (list (node * Z)) :=
  match ns with
  | [] => Some []
  | n :: ns' =>
      match node_words prop n, scored prop terms ns' with
      | WordsTypeError, _ => None
      | _, None => None
      | Words words, Some rest =>
          if candidate terms words then Some ((n, score terms words) :: rest)
          else Some rest
      | WordsNull, Some rest => Some rest
      end
  end.

Definition search_row (x : node * Z) : row :=
  [("matched", CProps (node_props (fst x))); ("score", CInt (neo4j_int (snd x)))].

(** The statement of [searchBy], over the parameters bound to it. *)
Definition db_search (lbl prop : string) (ps : list (string * param)) (g : graph)
  : option (list row) :=
  match bound_terms ps, bound_int ps "skip", bound_int ps "limit" with
  | Some terms, Some sk, Some lim =>
      match scored prop terms (filter (has_label lbl) g) with
      | None => None
      | Some rows =>
          option_map (map search_row) (skip_limit sk lim (order_by_score_desc rows))
      end
  | _, _, _ => None
  end.

(** *** The statements a service builds, run on a graph *)

(** The statement [createQuery] builds, run at server time [now]. *)
Definition run_createQuery {T : Type} (self : Neo4jModelService T) (props : bag)
    (now : Z) (g : graph) : option (graph * list node) :=
  db_create (label self) (timestamp self)
            (params (options (createQuery self props))) now g.

(** The statement [mergeQuery] builds: its pattern lists the keys of the
    bag the caller passed. *)
Definition run_mergeQuery {T : Type} (self : Neo4jModelService T) (props : bag)
    (now : Z) (g : graph) : option (graph * list node) :=
  db_merge (label self) (timestamp self) (Object_keys props)
           (params (options (mergeQuery self props))) now g.

(** The nodes of the label that fit a pattern. *)
Definition fitting (lbl : string) (pattern : bag) (g : graph) : list node :=
  filter (fun n => has_label lbl n && pattern_match pattern n) g.

(** *** The specification's wording of the score *)

(** Whitespace, as the specification's tokens are delimited. *)
Definition is_whitespace (c : ascii) : bool :=
  let n := nat_of_ascii c in
  Nat.eqb n 32 || (Nat.leb 9 n && Nat.leb n 13).

(** The whitespace-delimited tokens of a string. *)
Fixpoint whitespace_tokens (s : string) (cur : string) : list string :=
  match s with
  | EmptyString => if (cur =? "")%string then [] else [cur]
  | String c s' =>
      if is_whitespace c
      then ((if (cur =? "")%string then [] else [cur]) ++ whitespace_tokens s' "")%list
      else whitespace_tokens s' (cur ++ String c "")
  end.

Definition whitespace_split (s : string) : list string := whitespace_tokens s "".

Definition sumZ (l : list Z) : Z := fold_right Z.add 0 l.

(** 4 for an exact match, else 2 for a substring, else 0. *)
Definition word_points (t w : string) : Z :=
  if (w =? t)%string then 4 else if contains w t then 2 else 0.

(** The score as the specification words it: 100 when the terms and the
    words concatenate to the same text, else the sum over the terms of
    the sum over the words of the points of the pair. *)
Definition spec_score (terms words : list string) : Z :=
  if (text_join terms =? text_join words)%string then 100
  else sumZ (map (fun t => sumZ (map (word_points t) words)) terms).

(* ===================================================================== *)
(** ** Services that differ in one member *)
(* ===================================================================== *)


(** A logger that returns from every call. *)
Definition logger_returns {T : Type} (self : Neo4jModelService T) : Prop :=
  forall entry, logger_debug self entry = Ok tt.

(** The statement text of a builder does not depend on the values of the
    bag: bags with the same keys give the same text. *)
Definition value_free (build : bag -> Statement) : Prop :=
  forall props props',
    Object_keys props = Object_keys props' ->
    cypher (build props) = cypher (build props').

(** One entry of a literal pattern: the quoted key and the literal of the
    value. *)
Definition entry_text (kv : string * value) : string :=
  "`" ++ fst kv ++ "`:" ++ JSON_stringify (snd kv).

(** The literals [JSON.stringify] gives for the values of a bag, in the
    order of its keys. *)
Definition literals (b : bag) : list string :=
  map (fun kv => JSON_stringify (snd kv)) b.

(** [MATCH (n:`lbl`{...})] with the properties of [b] written out as
    literals. *)
Definition match_literal (lbl : string) (b : bag) : string :=
  "MATCH (n:`" ++ lbl ++ "`{" ++
  join_comma (map (literal_entry b) (Object_keys b)) ++ "})".

(* ===================================================================== *)
(** ** Services and graphs the examples run on *)
(* ===================================================================== *)

(** A database collaborator that answers every statement with the same
    rows. *)
Definition answering (rows : list row) : Neo4jService :=
  {| run := fun _ _ => Ok {| records := map (fun r => {| toObject := r |}) rows |} |}.


(** A logger whose [debug] returns. *)
Definition quiet_logger : Logger := {| debug := fun _ => Ok tt |}.

Definition str (s : string) : value := VScalar (SStr s).
Definition num (n : Z) : value := VScalar (SNum n).

(** A service over the label [Person] that stamps [createdAt]. *)
Definition person_service (db : Neo4jService) (lg : option Logger) : Neo4jModelService bag :=
  base_service "Person" "createdAt" db lg.

(** A service over the label [Person] with no timestamp property. *)
Definition plain_person_service (db : Neo4jService) (lg : option Logger)
  : Neo4jModelService bag :=
  base_service "Person" "" db lg.

(** An override of [toNeo4j] that stores every string with a mark in
    front of it and leaves the keys alone. *)
Definition marking_toNeo4j (t : bag) : bag :=
  map (fun kv =>
         match snd kv with
         | VScalar (SStr s) => (fst kv, VScalar (SStr ("#" ++ s)))
         | v => (fst kv, v)
         end) t.

Definition marking_service (db : Neo4jService) : Neo4jModelService bag :=
  {| label := "Person"; neo4jService := db; logger := None; timestamp := "";
     toNeo4j := marking_toNeo4j; fromNeo4j := default_fromNeo4j |}.





(** An override of [toNeo4j] that stores every number with the opposite
    sign (an account kept from the other party's side) and leaves the
    keys alone. *)
Definition negating_toNeo4j (t : bag) : bag :=
  map (fun kv =>
         match snd kv with
         | VScalar (SNum n) => (fst kv, VScalar (SNum (- n)))
         | VScalar (SInfinity negative) => (fst kv, VScalar (SInfinity (negb negative)))
         | v => (fst kv, v)
         end) t.

Definition negating_service (db : Neo4jService) : Neo4jModelService bag :=
  {| label := "Account"; neo4jService := db; logger := None; timestamp := "";
     toNeo4j := negating_toNeo4j; fromNeo4j := default_fromNeo4j |}.

(** An account without a limit to its credit: [{ credit: Infinity }]. *)
Definition unlimited_credit : bag := [("credit", VScalar (SInfinity false))].

(** A [Person] node that holds a name and nothing else. *)
Definition person (id : nat) (name : string) : node :=
  {| node_id := id; node_labels := ["Person"]; node_props := [("name", str name)] |}.

(** A search in the names, first page. *)
Definition search_names (ts : list string) : SearchParams :=
  {| prop := "name"; terms := ts; search_page := {| skip := None; limit := None |} |}.

Definition tab : ascii := "009"%char.

(** The text [a<TAB>b]. *)
Definition a_tab_b : string := String "a" (String tab "b").

Definition ada_bag : bag := [("name", str "Ada"); ("city", str "Paris")].

(** The node a first merge of [ada_bag] creates in the empty graph when no
    timestamp is configured. *)
Definition ada : node :=
  {| node_id := 1; node_labels := ["Person"]; node_props := ada_bag |}.


(** The page parameters of a [findBy] for a bag. *)
Definition find (props : bag) (pp : PageParams) : FindByParams :=
  {| find_props := props; find_page := pp |}.

Definition first_page : PageParams :=
  {| page := {| skip := None; limit := None |}; orderBy := None; descending := None |}.

(** The answer of the database to a statement that returns the property
    maps of the nodes [ns] under the column [name]. *)
Definition graph_result (name : string) (ns : list node) : QueryResult :=
  {| records := map (fun n => {| toObject := [(name, CProps (node_props n))] |}) ns |}.

(** The answer of the database to the search statement. *)
Definition search_result (rows : list row) : QueryResult :=
  {| records := map (fun r => {| toObject := r |}) rows |}.

(** The first of two scored rows does not score less than the second. *)
Definition score_ge (x y : node * Z) : Prop := snd y <= snd x.

(** Every node of the graph holds each of its properties once. *)
Definition wf_graph (g : graph) : Prop := forall n, In n g -> wf_bag (node_props n).

(** The numbers a signed 32-bit word holds. *)
Definition int32_range (z : Z) : Prop := - 2 ^ 31 <= z < 2 ^ 31.

(* ===================================================================== *)
(** ** The connection module *)
(* ===================================================================== *)

(** The embedding of [src/lib/neo4j.module.ts]: how a configuration
    object becomes a call of the driver's constructor.  [signedHeader]
    signs a request with the credentials and the clock of the host; it is
    taken as a parameter, and so are the driver's constructor, which
    throws on arguments it refuses, and the driver's connectivity check. *)

(** A value of a configuration object: a property value, or any other
    object or function, of which only the text it converts to matters. *)
Inductive setting : Type :=
| Plain (v : value)
| Other (text : string).

Definition config : Type := list (string * setting).

Definition config_keys (o : config) : list string := map fst o.

Definition wf_config (o : config) : Prop := NoDup (config_keys o).

(** [o.k]. *)
Fixpoint field (o : config) (k : string) : option setting :=
  match o with
  | [] => None
  | (k', v) :: o' => if (k' =? k)%string then Some v else field o' k
  end.

(** The property [k: v] written into an object literal after a spread. *)
Fixpoint with_field (o : config) (k : string) (v : setting) : config :=
  match o with
  | [] => [(k, v)]
  | (k', v') :: o' =>
      if (k' =? k)%string then (k, v) :: o' else (k', v') :: with_field o' k v
  end.

(** [{ ...o }]. *)
Definition copy (o : config) : config :=
  fold_left (fun target kv => with_field target (fst kv) (snd kv)) o [].

(** The rest of a destructuring [const { k1, k2, ..., ...rest } = o]. *)
Definition omit (ks : list string) (o : config) : config :=
  filter (fun kv => negb (existsb (String.eqb (fst kv)) ks)) o.

(** Truthiness of a value read from an object. *)
Definition truthy_setting (x : option setting) : bool :=
  match x with
  | None => false
  | Some (Plain (VScalar (SStr s))) => truthy s
  | Some (Plain (VScalar (SNum n))) => negb (n =? 0)%Z
  | Some (Plain (VScalar (SBool b))) => b
  | Some (Plain (VScalar (SInfinity _))) => true
  | Some (Plain (VArray _)) => true
  | Some (Other _) => true
  end.

Definition template_scalar (x : scalar) : string :=
  match x with
  | SStr s => s
  | SNum n => json_number n
  | SBool true => "true"
  | SBool false => "false"
  | SInfinity false => "Infinity"
  | SInfinity true => "-Infinity"
  end.

(** The text a template literal gives for [${x}]. *)
Definition template (x : option setting) : string :=
  match x with
  | None => "undefined"
  | Some (Plain (VScalar x)) => template_scalar x
  | Some (Plain (VArray xs)) => join_comma (map template_scalar xs)
  | Some (Other text) => text
  end.

(** An authentication token of the driver. *)
Record AuthToken : Type := {
  auth_scheme : string;
  principal : setting;
  credentials : setting;
  realm : option string
}.

(** [neo4j.auth.basic(username, password)]. *)
Definition auth_basic (username password : setting) : AuthToken :=
  {| auth_scheme := "basic"; principal := username; credentials := password;
     realm := None |}.

(** The arguments of a [neo4j.driver(url, auth, config)] call: the driver
    that call makes. *)
Record Driver : Type := {
  url : string;
  auth : option AuthToken;
  driver_config : config
}.

Section Module.
(** [neo4j.driver(url, auth, config)]: the constructor checks its
    arguments and throws on those it refuses, such as a URL whose scheme
    it does not know. *)
Variable neo4j_driver : Driver -> result unit.
(** [driver.verifyConnectivity()]. *)
Variable verifyConnectivity : Driver -> result unit.
(** [signedHeader(host, port, region)]. *)
Variable signedHeader : option setting -> option setting -> option setting -> result string.

Definition createDriver (cfg : config) : result Driver :=
  let scheme := field cfg "scheme" in
  let host := field cfg "host" in
  let port := field cfg "port" in
  let username := field cfg "username" in
  let password := field cfg "password" in
  let driverConfig := omit ["scheme"; "host"; "port"; "username"; "password"] cfg in
  let auth :=
    if negb (truthy_setting username) || negb (truthy_setting password) then None
    else
      match username, password with
      | Some u, Some pw => Some (auth_basic u pw)
      | _, _ => None
      end in
  let driver :=
    {| url := template scheme ++ "://" ++ template host ++ ":" ++ template port;
       auth := auth; driver_config := driverConfig |} in
  neo4j_driver driver ;;;
  verifyConnectivity driver ;;;
  Ok driver.

Definition createNeptuneDriver (cfg : config) : result Driver :=
  let host := field cfg "host" in
  let port := field cfg "port" in
  let region := field cfg "region" in
  let driverConfig := omit ["host"; "port"; "region"] cfg in
  signed <- signedHeader host port region ;;
  let driver :=
    {| url := "bolt://" ++ template host ++ ":" ++ template port;
       auth := Some {| auth_scheme := "basic"; principal := Plain (str "username");
                       credentials := Plain (str signed); realm := Some "realm" |};
       driver_config :=
         with_field
           (with_field (copy driverConfig) "encrypted" (Plain (str "ENCRYPTION_ON")))
           "trust" (Plain (str "TRUST_SYSTEM_CA_SIGNED_CERTIFICATES")) |} in
  neo4j_driver driver ;;;
  verifyConnectivity driver ;;;
  Ok driver.

Definition isNeo4jConfig (cfg : config) : bool := truthy_setting (field cfg "username").

(** What a [DynamicModule] of this module comes to: its [global] flag,
    the value provided as the configuration, and the factory of the
    driver, which is handed the provided configuration. *)
Record DynamicModule : Type := {
  is_global : option setting;
  provided_config : config;
  driver_factory : config -> result Driver
}.

Definition useFactory (cfg : config) : result Driver :=
  if isNeo4jConfig cfg then createDriver cfg else createNeptuneDriver cfg.

Definition forRoot (cfg : config) : DynamicModule :=
  {| is_global := field cfg "global";
     provided_config :=
       if isNeo4jConfig cfg then cfg
       else with_field (copy cfg) "scheme" (Plain (str "bolt"));
     driver_factory := useFactory |}.

(** [forRootAsync(configProvider)]: the configuration is whatever the
    provider resolves to. *)
Definition forRootAsync (global : option setting) (resolved : config) : DynamicModule :=
  {| is_global := global; provided_config := resolved; driver_factory := useFactory |}.

(** The driver a module makes once the framework resolves its providers. *)
Definition provided_driver (m : DynamicModule) : result Driver :=
  driver_factory m (provided_config m).

End Module.

(** The schemes of a URL the driver knows. *)
Definition schemes : list string :=
  ["bolt"; "bolt+s"; "bolt+ssc"; "neo4j"; "neo4j+s"; "neo4j+ssc"].

(** The scheme of a URL: the text before [://]. *)
Fixpoint url_scheme (u : string) : string :=
  match u with
  | EmptyString => EmptyString
  | String c u' => if String.prefix "://" u then EmptyString else String c (url_scheme u')
  end.

(** A constructor that refuses the URL of a scheme the driver does not
    know. *)
Definition known_scheme (d : Driver) : result unit :=
  if existsb (String.eqb (url_scheme (url d))) schemes
  then Ok tt
  else Throw (Error ("Unknown scheme: " ++ url_scheme (url d))).

(** A connectivity check that succeeds, and a signer that returns a fixed
    text. *)
Definition reachable (d : Driver) : result unit := Ok tt.
Definition signing (text : string)
    (host port region : option setting) : result string := Ok text.

(** A Neo4j configuration with a pool size among the driver's options. *)
Definition neo4j_config : config :=
  [("scheme", Plain (str "neo4j")); ("host", Plain (str "db.local"));
   ("port", Plain (num 7687)); ("username", Plain (str "neo4j"));
   ("password", Plain (str "secret")); ("maxConnectionPoolSize", Plain (num 50))].

(** A Neptune configuration that asks for no encryption. *)
Definition neptune_config : config :=
  [("host", Plain (str "cluster.local")); ("port", Plain (num 8182));
   ("region", Plain (str "eu-west-1")); ("encrypted", Plain (str "ENCRYPTION_OFF"))].

(* ===================================================================== *)
(** ** Pagination normalizer *)
(* ===================================================================== *)

Lemma to_int32_small (z : Z) : - 2 ^ 31 <= z < 2 ^ 31 -> to_int32 z = z.
Proof.
  intros Hz. unfold to_int32.
  rewrite Z.mod_small by lia. lia.
Qed.

Lemma to_int32_mod (z : Z) : to_int32 z mod 2 ^ 32 = z mod 2 ^ 32.
Proof.
  unfold to_int32.
  rewrite Zminus_mod_idemp_l.
  f_equal. lia.
Qed.

Lemma Integer_value_fromBits (n : Z) :
  int64_range n -> Integer_value (Integer_fromBits (n mod 2 ^ 32) (n / 2 ^ 32)) = n.
Proof.
  intros [Hlo Hhi]. unfold Integer_value, Integer_fromBits. cbn [low high].
  rewrite to_int32_mod, Z.mod_mod by lia.
  rewrite to_int32_small.
  - rewrite (Z.div_mod n (2 ^ 32)) at 3 by lia. lia.
  - split.
    + apply Z.div_le_lower_bound; lia.
    + apply Z.div_lt_upper_bound; lia.
Qed.

(** Inside the 64-bit range [neo4j.int] loses nothing. *)
Lemma neo4j_int_exact (n : Z) : int64_range n -> Integer_value (neo4j_int n) = n.
Proof.
  intros Hn. unfold neo4j_int.
  destruct (Z.leb_spec n (- 2 ^ 63)) as [Hmin | Hmin].
  - assert (n = - 2 ^ 63) by (unfold int64_range in Hn; lia). subst n. reflexivity.
  - destruct (Z.leb_spec (2 ^ 63) (n + 1)) as [Hmax | Hmax].
    + assert (n = 2 ^ 63 - 1) by (unfold int64_range in Hn; lia). subst n. reflexivity.
    + now apply Integer_value_fromBits.
Qed.


(** [neo4j.int] brings a number into the 64-bit range: a number beyond a
    bound becomes the bound. *)
Lemma neo4j_int_value (n : Z) :
  Integer_value (neo4j_int n) = Z.max (- 2 ^ 63) (Z.min (2 ^ 63 - 1) n).
Proof.
  destruct (Z.leb_spec n (- 2 ^ 63)) as [Hmin | Hmin].
  - unfold neo4j_int. destruct (Z.leb_spec n (- 2 ^ 63)); [| lia].
    change (Integer_value Integer_MIN_VALUE) with (- 2 ^ 63). lia.
  - destruct (Z.leb_spec (2 ^ 63) (n + 1)) as [Hmax | Hmax].
    + unfold neo4j_int. destruct (Z.leb_spec n (- 2 ^ 63)); [lia |].
      destruct (Z.leb_spec (2 ^ 63) (n + 1)); [| lia].
      change (Integer_value Integer_MAX_VALUE) with (2 ^ 63 - 1). lia.
    + rewrite neo4j_int_exact by (unfold int64_range; lia). lia.
Qed.

Lemma truncate_integer (n : Z) : truncate (inject_Z n) = n.
Proof. unfold truncate, inject_Z. cbn [Qnum Qden]. apply Z.quot_1_r. Qed.









(** C9. An explicitly supplied limit of 0 is replaced by the default 10
    and an explicitly supplied skip of 0 yields 0: the normalizer's
    output for a zero is the one for the missing key, whatever the other
    bound, so the statements [findAll], [findBy] and [searchBy] build for
    [limit: 0] are the ones they build when the limit is left out. *)
Theorem convertSkipLimit_zero_is_missing :
  (forall s,
      _convertSkipLimit (Some {| skip := s; limit := Some 0 |}) =
      _convertSkipLimit (Some {| skip := s; limit := None |}) /\
      Integer_value (limit_int (_convertSkipLimit (Some {| skip := s; limit := Some 0 |}))) = 10) /\
  (forall l,
      _convertSkipLimit (Some {| skip := Some 0; limit := l |}) =
      _convertSkipLimit (Some {| skip := None; limit := l |}) /\
      Integer_value (skip_int (_convertSkipLimit (Some {| skip := Some 0; limit := l |}))) = 0) /\
  (forall T (self : Neo4jModelService T) s ob desc props p ts,
      findAllQuery self (Some {| page := {| skip := s; limit := Some 0 |};
                                 orderBy := ob; descending := desc |}) =
      findAllQuery self (Some {| page := {| skip := s; limit := None |};
                                 orderBy := ob; descending := desc |}) /\
      findByQuery self (find props {| page := {| skip := s; limit := Some 0 |};
                                      orderBy := ob; descending := desc |}) =
      findByQuery self (find props {| page := {| skip := s; limit := None |};
                                      orderBy := ob; descending := desc |}) /\
      searchByQuery self {| prop := p; terms := ts;
                            search_page := {| skip := s; limit := Some 0 |} |} =
      searchByQuery self {| prop := p; terms := ts;
                            search_page := {| skip := s; limit := None |} |}).
Proof.
  split; [| split].
  - intros s. split; reflexivity.
  - intros l. split; reflexivity.
  - intros T self s ob desc props p ts. repeat split.
Qed.

(* ===================================================================== *)
(** ** Property bags and the default mapper *)
(* ===================================================================== *)

Lemma Object_keys_app (o o' : bag) :
  Object_keys (o ++ o')%list = (Object_keys o ++ Object_keys o')%list.
Proof. apply map_app. Qed.

Lemma define_fresh (o : bag) (k : string) (v : value) :
  ~ In k (Object_keys o) -> define o k v = (o ++ [(k, v)])%list.
Proof.
  induction o as [| [k' v'] o IH]; intros Hk; cbn.
  - reflexivity.
  - destruct (String.eqb_spec k' k) as [-> | Hne].
    + exfalso. apply Hk. now left.
    + rewrite IH; [reflexivity |]. intros Hin. apply Hk. now right.
Qed.

Lemma spread_onto (t target : bag) :
  NoDup (Object_keys target ++ Object_keys t)%list ->
  fold_left (fun tg kv => define tg (fst kv) (snd kv)) t target = (target ++ t)%list.
Proof.
  revert target. induction t as [| [k v] t IH]; intros target Hnd; cbn.
  - now rewrite app_nil_r.
  - cbn in Hnd. rewrite define_fresh.
    + rewrite IH.
      * now rewrite <- app_assoc.
      * rewrite Object_keys_app, <- app_assoc. exact Hnd.
    + apply NoDup_remove_2 in Hnd. intros Hin. apply Hnd.
      apply in_or_app. now left.
Qed.

(** Spreading an object gives an object with the same properties in the
    same order. *)
Lemma spread_wf (t : bag) : wf_bag t -> spread t = t.
Proof.
  intros Hwf. unfold spread. now rewrite spread_onto.
Qed.

Lemma get_define_same (o : bag) (k : string) (v : value) : get (define o k v) k = Some v.
Proof.
  induction o as [| [k' v'] o IH]; cbn.
  - now rewrite String.eqb_refl.
  - destruct (String.eqb_spec k' k) as [-> | Hne]; cbn.
    + now rewrite String.eqb_refl.
    + destruct (String.eqb_spec k' k); [contradiction | exact IH].
Qed.

Lemma get_define_other (o : bag) (k k' : string) (v : value) :
  k <> k' -> get (define o k v) k' = get o k'.
Proof.
  intros Hne. induction o as [| [k0 v0] o IH]; cbn.
  - destruct (String.eqb_spec k k'); [contradiction | reflexivity].
  - destruct (String.eqb_spec k0 k) as [-> | Hne0]; cbn.
    + destruct (String.eqb_spec k k'); [contradiction | reflexivity].
    + destruct (String.eqb_spec k0 k'); [reflexivity | exact IH].
Qed.

Lemma get_In (o : bag) (k : string) (v : value) :
  wf_bag o -> In (k, v) o -> get o k = Some v.
Proof.
  unfold wf_bag. induction o as [| [k' v'] o IH]; intros Hwf Hin; cbn in *.
  - contradiction.
  - inversion Hwf as [| ? ? Hnotin Hwf']; subst.
    destruct Hin as [Heq | Hin].
    + inversion Heq; subst. now rewrite String.eqb_refl.
    + destruct (String.eqb_spec k' k) as [-> | Hne].
      * exfalso. apply Hnotin. change k with (fst (k, v)). now apply in_map.
      * now apply IH.
Qed.

(** C8. For the default (non-overridden) property mapper the two shallow
    copies compose to the identity: on a service that overrides neither
    hook, [fromNeo4j(toNeo4j(x))] holds the properties of [x], with the
    same values, in the same order, for every property bag [x]. *)
Theorem default_mapper_round_trip (lbl ts : string) (db : Neo4jService)
    (lg : option Logger) (x : bag) :
  wf_bag x ->
  fromNeo4j (base_service lbl ts db lg) (toNeo4j (base_service lbl ts db lg) x) = x.
Proof.
  intros Hwf. cbn. unfold default_fromNeo4j, default_toNeo4j.
  rewrite (spread_wf x Hwf). now apply spread_wf.
Qed.

Lemma default_mapper_round_trip_witness :
  wf_bag [("name", str "Ada"); ("tags", VArray [SNum 1; SBool true])] /\
  fromNeo4j (person_service (answering []) None)
    (toNeo4j (person_service (answering []) None)
       [("name", str "Ada"); ("tags", VArray [SNum 1; SBool true])]) =
  [("name", str "Ada"); ("tags", VArray [SNum 1; SBool true])].
Proof.
  assert (Hwf : wf_bag [("name", str "Ada"); ("tags", VArray [SNum 1; SBool true])]).
  { unfold wf_bag. cbn. repeat constructor; cbn; intuition discriminate. }
  split; [exact Hwf |].
  exact (default_mapper_round_trip "Person" "createdAt" (answering []) None _ Hwf).
Defined.

(* ===================================================================== *)
(** ** The search: candidate filter and score *)
(* ===================================================================== *)

Lemma word_step_points (st : string) (s2 : Z) (w : string) :
  word_step st s2 w = s2 + word_points st w.
Proof.
  unfold word_step, word_points.
  destruct (w =? st)%string; [reflexivity |].
  destruct (contains w st); lia.
Qed.

Lemma reduce_words (st : string) (words : list string) (s2 : Z) :
  fold_left (word_step st) words s2 = s2 + sumZ (map (word_points st) words).
Proof.
  revert s2. induction words as [| w words IH]; intros s2; cbn.
  - lia.
  - rewrite IH, word_step_points. fold (sumZ (map (word_points st) words)). lia.
Qed.

Lemma reduce_terms (f : string -> Z) (terms : list string) (s : Z) :
  fold_left (fun s st => s + f st) terms s = s + sumZ (map f terms).
Proof.
  revert s. induction terms as [| t terms IH]; intros s; cbn.
  - lia.
  - rewrite IH. fold (sumZ (map f terms)). lia.
Qed.

(** The two nested [reduce]s of the statement compute the double sum of
    the specification. *)
Lemma score_spec (terms words : list string) : score terms words = spec_score terms words.
Proof.
  unfold score, spec_score.
  destruct (text_join terms =? text_join words)%string; [reflexivity |].
  rewrite reduce_terms. cbn. f_equal.
  apply map_ext. intros t. now rewrite reduce_words.
Qed.

Lemma scored_In (prop : string) (terms : list string) (ns : list node)
    (rows : list (node * Z)) (x : node * Z) :
  scored prop terms ns = Some rows -> In x rows ->
  In (fst x) ns /\
  exists words,
    node_words prop (fst x) = Words words /\
    candidate terms words = true /\
    snd x = score terms words.
Proof.
  revert rows. induction ns as [| n ns IH]; intros rows Hs Hin; cbn in Hs.
  - inversion Hs; subst. contradiction.
  - destruct (node_words prop n) as [| words |] eqn:Hw; [| | discriminate].
    + destruct (scored prop terms ns) as [rest |]; [| discriminate].
      inversion Hs; subst. destruct (IH _ eq_refl Hin) as [Hn Hx].
      split; [now right | exact Hx].
    + destruct (scored prop terms ns) as [rest |]; [| discriminate].
      destruct (candidate terms words) eqn:Hc; inversion Hs; subst.
      * destruct Hin as [<- | Hin].
        -- split; [now left |]. exists words. cbn. auto.
        -- destruct (IH _ eq_refl Hin) as [Hn Hx]. split; [now right | exact Hx].
      * destruct (IH _ eq_refl Hin) as [Hn Hx]. split; [now right | exact Hx].
Qed.

Lemma insert_by_score_In (x y : node * Z) (l : list (node * Z)) :
  In y (insert_by_score x l) -> y = x \/ In y l.
Proof.
  induction l as [| z l IH]; cbn.
  - intros [<- | []]. now left.
  - destruct (snd z <=? snd x)%Z; cbn.
    + intros [<- | H]; [now left | now right].
    + intros [<- | H]; [right; now left |].
      destruct (IH H) as [-> | Hin]; [now left | right; now right].
Qed.

Lemma order_by_score_desc_In (y : node * Z) (l : list (node * Z)) :
  In y (order_by_score_desc l) -> In y l.
Proof.
  induction l as [| x l IH]; cbn.
  - auto.
  - intros H. apply insert_by_score_In in H. destruct H as [-> | H]; auto.
Qed.

Lemma In_firstn {A : Type} (n : nat) (l : list A) (x : A) : In x (firstn n l) -> In x l.
Proof.
  intros H. rewrite <- (firstn_skipn n l). apply in_or_app. now left.
Qed.

Lemma In_skipn {A : Type} (n : nat) (l : list A) (x : A) : In x (skipn n l) -> In x l.
Proof.
  intros H. rewrite <- (firstn_skipn n l). apply in_or_app. now right.
Qed.

Lemma skip_limit_In {A : Type} (sk lim : Z) (l l' : list A) (x : A) :
  skip_limit sk lim l = Some l' -> In x l' -> In x l.
Proof.
  unfold skip_limit. destruct ((sk <? 0) || (lim <? 0))%Z; [discriminate |].
  intros H Hin. inversion H; subst.
  apply In_firstn in Hin. now apply In_skipn in Hin.
Qed.

Lemma skip_limit_nil {A : Type} (sk lim : Z) (l' : list A) :
  skip_limit sk lim [] = Some l' -> l' = [].
Proof.
  unfold skip_limit. destruct ((sk <? 0) || (lim <? 0))%Z; [discriminate |].
  intros H. inversion H. now rewrite skipn_nil, firstn_nil.
Qed.

Lemma searchBy_bound_terms {T : Type} (self : Neo4jModelService T) (sp : SearchParams) :
  bound_terms (params (options (searchByQuery self sp))) = Some (terms sp).
Proof. reflexivity. Qed.

Lemma searchBy_bound_skip {T : Type} (self : Neo4jModelService T) (sp : SearchParams) :
  bound_int (params (options (searchByQuery self sp))) "skip" =
  Some (Integer_value (neo4j_int (or_default (skip (search_page sp)) 0))).
Proof. reflexivity. Qed.

Lemma searchBy_bound_limit {T : Type} (self : Neo4jModelService T) (sp : SearchParams) :
  bound_int (params (options (searchByQuery self sp))) "limit" =
  Some (Integer_value (neo4j_int (or_default (limit (search_page sp)) 10))).
Proof. reflexivity. Qed.

Lemma scored_complete (prop : string) (terms : list string) (ns : list node)
    (rows : list (node * Z)) (n : node) (words : list string) :
  scored prop terms ns = Some rows -> In n ns ->
  node_words prop n = Words words -> candidate terms words = true ->
  In (n, score terms words) rows.
Proof.
  revert rows. induction ns as [| m ns IH]; intros rows Hs Hin Hw Hc; cbn in Hs.
  - contradiction.
  - destruct (node_words prop m) as [| mwords |] eqn:Hm; [| | discriminate];
      destruct (scored prop terms ns) as [rest |]; try discriminate.
    + inversion Hs; subst. destruct Hin as [-> | Hin]; [congruence | now apply IH].
    + destruct Hin as [-> | Hin].
      * rewrite Hw in Hm. inversion Hm; subst mwords. rewrite Hc in Hs.
        inversion Hs. now left.
      * destruct (candidate terms mwords); inversion Hs; subst;
          [right |]; now apply IH.
Qed.

(** C1 (amended). Every node of the label whose words pass the candidate
    filter is scored, and every row the search statement returns is such
    a node; the words are the segments of the string the property holds
    between single space characters; the score is 100 when the terms and
    the words concatenate to the same text, and otherwise the sum over
    the terms of the sum over the words of 4 for an equal word, else 2
    for a word that contains the term, else 0.  For the value
    [red blue red] and the terms [red], [blue] the score is 12. *)
Theorem searchBy_score :
  (forall (p : string) (ts : list string) (ns : list node) (rows : list (node * Z))
          (n : node) (text : string),
      scored p ts ns = Some rows -> In n ns ->
      get (node_props n) p = Some (str text) ->
      candidate ts (split " " text) = true ->
      In (n, spec_score ts (split " " text)) rows) /\
  (forall (T : Type) (self : Neo4jModelService T) (sp : SearchParams)
          (g : graph) (rows : list row),
      db_search (label self) (prop sp) (params (options (searchByQuery self sp))) g = Some rows ->
      forall r, In r rows ->
      exists n text,
        In n g /\ has_label (label self) n = true /\
        get (node_props n) (prop sp) = Some (str text) /\
        candidate (terms sp) (split " " text) = true /\
        r = search_row (n, spec_score (terms sp) (split " " text))) /\
  score ["red"; "blue"] (split " " "red blue red") = 12.
Proof.
  split; [| split; [| reflexivity]].
  { intros p ts ns rows n text Hs Hin Hget Hc. rewrite <- score_spec.
    apply (scored_complete p ts ns rows n (split " " text) Hs Hin); [| exact Hc].
    unfold node_words. now rewrite Hget. }
  intros T self sp g rows Hdb r Hr.
  unfold db_search in Hdb.
  rewrite searchBy_bound_terms, searchBy_bound_skip, searchBy_bound_limit in Hdb.
  destruct (scored (prop sp) (terms sp) (filter (has_label (label self)) g))
    as [scoredrows |] eqn:Hs; [| discriminate].
  destruct (skip_limit _ _ (order_by_score_desc scoredrows)) as [paged |] eqn:Hp;
    [| discriminate].
  cbn in Hdb. inversion Hdb; subst rows. clear Hdb.
  apply in_map_iff in Hr. destruct Hr as [[n sc] [<- Hin]].
  apply (skip_limit_In _ _ _ _ _ Hp) in Hin.
  apply order_by_score_desc_In in Hin.
  destruct (scored_In _ _ _ _ _ Hs Hin) as [Hn [words [Hw [Hc Hsc]]]].
  cbn [fst snd] in *.
  apply filter_In in Hn. destruct Hn as [Hg Hl].
  unfold node_words in Hw.
  destruct (get (node_props n) (prop sp)) as [[[text | | |] |] |] eqn:Hget;
    try discriminate.
  inversion Hw; subst words.
  exists n, text. repeat split; auto.
  now rewrite Hsc, score_spec.
Qed.

Lemma searchBy_score_witness :
  db_search "Person" "name"
    (params (options (searchByQuery (person_service (answering []) None)
                                    (search_names ["red"; "blue"]))))
    [person 1 "red blue red"; person 2 "green"] =
  Some [search_row (person 1 "red blue red", 12)] /\
  exists n text,
    In n [person 1 "red blue red"; person 2 "green"] /\ has_label "Person" n = true /\
    get (node_props n) "name" = Some (str text) /\
    candidate ["red"; "blue"] (split " " text) = true /\
    search_row (person 1 "red blue red", 12) =
    search_row (n, spec_score ["red"; "blue"] (split " " text)).
Proof.
  split; [reflexivity |].
  apply (proj1 (proj2 searchBy_score) _ (person_service (answering []) None)
           (search_names ["red"; "blue"])
           [person 1 "red blue red"; person 2 "green"]
           [search_row (person 1 "red blue red", 12)]).
  - reflexivity.
  - now left.
Defined.

(** C1, as stated, fails on a value whose words are set apart by a tab:
    the whitespace-delimited words of [a<TAB>b] concatenate to the text
    of the terms [a], [b], which would score 100, yet the statement
    splits at spaces only, finds the one word [a<TAB>b] and scores it
    2 + 2. *)
Lemma searchBy_score_whitespace_counterexample :
  whitespace_split a_tab_b = ["a"; "b"] /\
  spec_score ["a"; "b"] (whitespace_split a_tab_b) = 100 /\
  db_search "Person" "name"
    (params (options (searchByQuery (person_service (answering []) None)
                                    (search_names ["a"; "b"]))))
    [person 1 a_tab_b] =
  Some [search_row (person 1 a_tab_b, 4)] /\
  score ["a"; "b"] (split " " a_tab_b) <> spec_score ["a"; "b"] (whitespace_split a_tab_b).
Proof. repeat split. discriminate. Qed.

Lemma survives_nil (w : words_value) : survives [] w = false.
Proof. destruct w; reflexivity. Qed.

(** With no term, no node reaches the score. *)
Lemma scored_nil (prop : string) (ns : list node) (rows : list (node * Z)) :
  scored prop [] ns = Some rows -> rows = [].
Proof.
  revert rows. induction ns as [| n ns IH]; intros rows H; cbn in H.
  - now inversion H.
  - destruct (node_words prop n); [| | discriminate];
      destruct (scored prop [] ns) as [rest |]; try discriminate.
    + inversion H; subst. now apply IH.
    + cbn in H. inversion H; subst. now apply IH.
Qed.

Lemma scored_total (prop : string) (terms : list string) (ns : list node) :
  (forall n, In n ns -> node_words prop n <> WordsTypeError) ->
  exists rows, scored prop terms ns = Some rows.
Proof.
  induction ns as [| n ns IH]; intros Hty; cbn.
  - now exists [].
  - destruct IH as [rest Hrest].
    { intros m Hm. apply Hty. now right. }
    rewrite Hrest.
    destruct (node_words prop n) as [| words |] eqn:Hw.
    + now exists rest.
    + destruct (candidate terms words); eauto.
    + exfalso. apply (Hty n); [now left | exact Hw].
Qed.

Lemma neo4j_int_nonneg (n : Z) : 0 <= n -> 0 <= Integer_value (neo4j_int n).
Proof.
  intros Hn.
  destruct (Z.ltb_spec n (2 ^ 63)) as [Hlt | Hge].
  - rewrite neo4j_int_exact; unfold int64_range; lia.
  - unfold neo4j_int.
    destruct (Z.leb_spec n (- 2 ^ 63)); [lia |].
    destruct (Z.leb_spec (2 ^ 63) (n + 1)); [| lia].
    vm_compute. discriminate.
Qed.

(** C5. For every label and every property, the search statement built
    for an empty list of terms returns no row: the candidate filter is
    false for every node, whatever its words, so whenever the database
    runs the statement the result is empty; it does run it when the
    searched property holds text and the bounds are not negative; and
    [searchBy] then returns the empty list. *)
Theorem searchBy_empty_terms (T : Type) (self : Neo4jModelService T) (p : string)
    (sl : SkipLimit) (g : graph) :
  let sp := {| prop := p; terms := []; search_page := sl |} in
  let q := searchByQuery self sp in
  (forall w, survives (terms sp) w = false) /\
  (forall rows, db_search (label self) p (params (options q)) g = Some rows -> rows = []) /\
  (text_property (label self) p g ->
   0 <= or_default (skip sl) 0 -> 0 <= or_default (limit sl) 10 ->
   db_search (label self) p (params (options q)) g = Some []) /\
  (logger_returns self ->
   run (neo4jService self) (cypher q) (options q) = Ok {| records := [] |} ->
   searchBy self sp = Ok []).
Proof.
  intros sp q. split; [| split; [| split]].
  - intros w. apply survives_nil.
  - intros rows Hdb. unfold db_search in Hdb. subst q.
    rewrite searchBy_bound_terms, searchBy_bound_skip, searchBy_bound_limit in Hdb.
    cbn [terms sp] in Hdb.
    destruct (scored p [] (filter (has_label (label self)) g)) as [rs |] eqn:Hs;
      [| discriminate].
    apply scored_nil in Hs. subst rs. cbn in Hdb.
    destruct (skip_limit _ _ []) as [paged |] eqn:Hp; [| discriminate].
    apply skip_limit_nil in Hp. subst paged. cbn in Hdb. now inversion Hdb.
  - intros Hty Hskip Hlimit. unfold db_search. subst q.
    rewrite searchBy_bound_terms, searchBy_bound_skip, searchBy_bound_limit.
    cbn [terms sp search_page].
    destruct (scored_total p [] (filter (has_label (label self)) g)) as [rs Hs].
    { intros n Hn. apply filter_In in Hn. destruct Hn as [Hg Hl]. now apply Hty. }
    rewrite Hs. apply scored_nil in Hs. subst rs. cbn.
    unfold skip_limit.
    apply neo4j_int_nonneg in Hskip. apply neo4j_int_nonneg in Hlimit.
    destruct (Z.ltb_spec (Integer_value (neo4j_int (or_default (skip sl) 0))) 0); [lia |].
    destruct (Z.ltb_spec (Integer_value (neo4j_int (or_default (limit sl) 10))) 0); [lia |].
    cbn. now rewrite skipn_nil, firstn_nil.
  - intros Hlog Hrun. subst q. unfold searchBy, _runWithDebug.
    rewrite !Hlog. cbv zeta. unfold bind. rewrite Hrun, Hlog. reflexivity.
Qed.

Lemma searchBy_empty_terms_witness :
  db_search "Person" "name"
    (params (options (searchByQuery (person_service (answering []) None) (search_names []))))
    [person 1 "red blue red"; person 2 "green"] = Some [] /\
  searchBy (person_service (answering []) None) (search_names []) = Ok [].
Proof.
  destruct (searchBy_empty_terms bag (person_service (answering []) None) "name"
              {| skip := None; limit := None |}
              [person 1 "red blue red"; person 2 "green"]) as (_ & _ & Hrun & Hcall).
  split.
  - apply Hrun.
    + intros n [<- | [<- | []]] _; discriminate.
    + vm_compute. discriminate.
    + vm_compute. discriminate.
  - apply Hcall; [intros entry |]; reflexivity.
Defined.

(* ===================================================================== *)
(** ** [create] and [merge]: the timestamp and the match key *)
(* ===================================================================== *)

Lemma scalar_eqb_eq (x y : scalar) : scalar_eqb x y = true <-> x = y.
Proof.
  destruct x, y; cbn; split; intros H; try discriminate.
  - apply String.eqb_eq in H. now subst.
  - inversion H. apply String.eqb_refl.
  - apply Z.eqb_eq in H. now subst.
  - inversion H. apply Z.eqb_refl.
  - apply Bool.eqb_prop in H. now subst.
  - inversion H. apply Bool.eqb_reflx.
  - apply Bool.eqb_prop in H. now subst.
  - inversion H. apply Bool.eqb_reflx.
Qed.

Lemma scalars_eqb_eq (xs ys : list scalar) : scalars_eqb xs ys = true <-> xs = ys.
Proof.
  revert ys. induction xs as [| x xs IH]; intros [| y ys]; cbn; split; intros H;
    try discriminate; try reflexivity.
  - apply andb_true_iff in H. destruct H as [Hx Hxs].
    apply scalar_eqb_eq in Hx. apply IH in Hxs. now subst.
  - inversion H; subst. apply andb_true_iff. split.
    + now apply scalar_eqb_eq.
    + now apply IH.
Qed.

Lemma value_eqb_eq (v w : value) : value_eqb v w = true <-> v = w.
Proof.
  destruct v, w; cbn; split; intros H; try discriminate.
  - apply scalar_eqb_eq in H. now subst.
  - inversion H. now apply scalar_eqb_eq.
  - apply scalars_eqb_eq in H. now subst.
  - inversion H. now apply scalars_eqb_eq.
Qed.

Lemma value_eqb_refl (v : value) : value_eqb v v = true.
Proof. now apply value_eqb_eq. Qed.

Lemma truthy_true (s : string) : s <> "" -> truthy s = true.
Proof.
  intros H. unfold truthy. destruct (String.eqb_spec s ""); [contradiction | reflexivity].
Qed.

Lemma merge_pattern_keys (keys : list string) (b pattern : bag) :
  merge_pattern keys b = Some pattern -> Object_keys pattern = keys.
Proof.
  revert pattern. induction keys as [| k keys IH]; intros pattern H; cbn in H.
  - now inversion H.
  - destruct (get b k); [| discriminate].
    destruct (merge_pattern keys b) as [p |]; [| discriminate].
    inversion H; subst. cbn. f_equal. now apply IH.
Qed.

(** With the hooks of the base class the pattern of a merge is the bag
    itself: every property, with its own value. *)
Lemma merge_pattern_whole_bag (b : bag) :
  wf_bag b -> merge_pattern (Object_keys b) b = Some b.
Proof.
  intros Hwf.
  assert (H : forall part, incl part b -> merge_pattern (map fst part) b = Some part).
  { induction part as [| [k v] part IH]; intros Hincl; cbn [map fst merge_pattern].
    - reflexivity.
    - rewrite (get_In b k v Hwf) by (apply Hincl; now left).
      rewrite IH; [reflexivity |]. intros x Hx. apply Hincl. now right. }
  apply H. apply incl_refl.
Qed.

(** A node made from a pattern fits the pattern, unless the timestamp
    overwrites one of the pattern's properties. *)
Lemma pattern_match_created (ts : string) (now : Z) (pattern : bag) (id : nat)
    (labels : list string) :
  wf_bag pattern ->
  (truthy ts = true -> ~ In ts (Object_keys pattern)) ->
  pattern_match pattern
    {| node_id := id; node_labels := labels;
       node_props := stamp ts now (spread pattern) |} = true.
Proof.
  intros Hwf Hts. unfold pattern_match. apply forallb_forall.
  intros [k v] Hin. cbn [fst snd node_props].
  rewrite (spread_wf pattern Hwf).
  assert (Hget : get (stamp ts now pattern) k = Some v).
  { unfold stamp. destruct (truthy ts) eqn:Htr.
    - rewrite get_define_other; [now apply get_In |].
      intros ->. apply (Hts eq_refl). change k with (fst (k, v)). now apply in_map.
    - now apply get_In. }
  rewrite Hget. apply value_eqb_refl.
Qed.


(** The nodes a merge binds carry the label and fit the pattern. *)
Lemma db_merge_fits (lbl ts : string) (keys : list string) (ps : list (string * param))
    (now : Z) (g g' : graph) (ns : list node) (b pattern : bag) :
  bound_props ps = Some b ->
  merge_pattern keys b = Some pattern ->
  NoDup keys ->
  (truthy ts = true -> ~ In ts keys) ->
  db_merge lbl ts keys ps now g = Some (g', ns) ->
  forall n, In n ns -> has_label lbl n = true /\ pattern_match pattern n = true.
Proof.
  intros Hb Hp Hnd Hts Hm n Hn. unfold db_merge in Hm. rewrite Hb, Hp in Hm.
  assert (Hwf : wf_bag pattern).
  { unfold wf_bag. now rewrite (merge_pattern_keys _ _ _ Hp). }
  destruct (filter (fun n => has_label lbl n && pattern_match pattern n) g)
    as [| m ms] eqn:Hf.
  - inversion Hm; subst. destruct Hn as [<- | []]. split.
    + unfold has_label. cbn. now rewrite String.eqb_refl.
    + apply pattern_match_created; [exact Hwf |].
      now rewrite (merge_pattern_keys _ _ _ Hp).
  - inversion Hm; subst. rewrite <- Hf in Hn. apply filter_In in Hn.
    destruct Hn as [_ Hn]. now apply andb_true_iff in Hn.
Qed.




Lemma createQuery_bound_props {T : Type} (self : Neo4jModelService T) (props : bag) :
  bound_props (params (options (createQuery self props))) = Some (toNeo4j self props).
Proof. reflexivity. Qed.

Lemma mergeQuery_bound_props {T : Type} (self : Neo4jModelService T) (props : bag) :
  bound_props (params (options (mergeQuery self props))) = Some (toNeo4j self props).
Proof. reflexivity. Qed.

Lemma run_mergeQuery_cases {T : Type} (self : Neo4jModelService T) (props : bag)
    (now : Z) (g g' : graph) (ns : list node) :
  run_mergeQuery self props now g = Some (g', ns) ->
  exists pattern,
    merge_pattern (Object_keys props) (toNeo4j self props) = Some pattern /\
    ((fitting (label self) pattern g <> [] /\ g' = g /\
      ns = fitting (label self) pattern g) \/
     (fitting (label self) pattern g = [] /\
      exists n, g' = (g ++ [n])%list /\ ns = [n] /\ node_labels n = [label self] /\
                node_props n = stamp (timestamp self) now (spread pattern))).
Proof.
  unfold run_mergeQuery, db_merge, fitting. rewrite mergeQuery_bound_props.
  destruct (merge_pattern (Object_keys props) (toNeo4j self props)) as [pattern |];
    [| discriminate].
  intros H. exists pattern. split; [reflexivity |].
  destruct (filter _ g) as [| m ms] eqn:Hf.
  - right. split; [reflexivity |]. inversion H; subst. eexists. repeat split.
  - left. inversion H; subst. repeat split. discriminate.
Qed.

(** C3. When a timestamp marker is configured, the statement [create]
    builds holds an unconditional [SET] of the marker to [timestamp()],
    and the node it creates holds the server time under the marker, for
    every property bag; the statement [merge] builds holds the [SET] in
    its [ON CREATE] branch only: when a node fits the pattern the graph
    is left as it is, and only a node the statement creates receives the
    server time.  When no marker is configured neither statement holds a
    clause for it, and the created node holds the bound properties and
    nothing else. *)
Theorem timestamp_stamping (T : Type) (self : Neo4jModelService T) (props : bag)
    (now : Z) (g : graph) :
  (timestamp self <> "" ->
   cypher (createQuery self props) =
     "CREATE (n:`" ++ label self ++ "`) SET n=$props " ++
     ("SET n.`" ++ timestamp self ++ "` = timestamp() ") ++
     "RETURN properties(n) AS created" /\
   (exists n,
       run_createQuery self props now g = Some ((g ++ [n])%list, [n]) /\
       get (node_props n) (timestamp self) = Some (num now)) /\
   cypher (mergeQuery self props) =
     "MERGE (n:`" ++ label self ++ "`{" ++
     join_comma (map bound_entry (Object_keys props)) ++ "})" ++
     (" ON CREATE SET n.`" ++ timestamp self ++ "` = timestamp()") ++
     " RETURN properties(n) AS merged" /\
   (forall g' ns,
       run_mergeQuery self props now g = Some (g', ns) ->
       exists pattern,
         merge_pattern (Object_keys props) (toNeo4j self props) = Some pattern /\
         ((fitting (label self) pattern g <> [] /\ g' = g /\
           ns = fitting (label self) pattern g) \/
          (fitting (label self) pattern g = [] /\
           exists n, g' = (g ++ [n])%list /\ ns = [n] /\
                     get (node_props n) (timestamp self) = Some (num now))))) /\
  (timestamp self = "" ->
   cypher (createQuery self props) =
     "CREATE (n:`" ++ label self ++ "`) SET n=$props " ++
     "RETURN properties(n) AS created" /\
   (exists n,
       run_createQuery self props now g = Some ((g ++ [n])%list, [n]) /\
       node_props n = toNeo4j self props) /\
   cypher (mergeQuery self props) =
     "MERGE (n:`" ++ label self ++ "`{" ++
     join_comma (map bound_entry (Object_keys props)) ++ "})" ++
     " RETURN properties(n) AS merged" /\
   (forall g' ns,
       run_mergeQuery self props now g = Some (g', ns) ->
       exists pattern,
         merge_pattern (Object_keys props) (toNeo4j self props) = Some pattern /\
         ((fitting (label self) pattern g <> [] /\ g' = g /\
           ns = fitting (label self) pattern g) \/
          (fitting (label self) pattern g = [] /\
           exists n, g' = (g ++ [n])%list /\ ns = [n] /\
                     node_props n = spread pattern)))).
Proof.
  split.
  - intros Hts. pose proof (truthy_true _ Hts) as Htr.
    split; [| split; [| split]].
    + unfold createQuery. cbn [cypher]. now rewrite Htr.
    + unfold run_createQuery, db_create. rewrite createQuery_bound_props.
      eexists. split; [reflexivity |].
      cbn [node_props]. unfold stamp. rewrite Htr. apply get_define_same.
    + unfold mergeQuery. cbn [cypher]. now rewrite Htr.
    + intros g' ns Hm.
      destruct (run_mergeQuery_cases self props now g g' ns Hm)
        as [pattern [Hp [Hfit | [Hnone [n [Hg [Hns [_ Hprops]]]]]]]];
        exists pattern; (split; [exact Hp |]).
      * now left.
      * right. split; [exact Hnone |]. exists n. repeat split; auto.
        rewrite Hprops. unfold stamp. rewrite Htr. apply get_define_same.
  - intros Hts. split; [| split; [| split]].
    + unfold createQuery. cbn [cypher]. now rewrite Hts.
    + unfold run_createQuery, db_create. rewrite createQuery_bound_props.
      eexists. split; [reflexivity |].
      cbn [node_props]. unfold stamp. now rewrite Hts.
    + unfold mergeQuery. cbn [cypher]. now rewrite Hts.
    + intros g' ns Hm.
      destruct (run_mergeQuery_cases self props now g g' ns Hm)
        as [pattern [Hp [Hfit | [Hnone [n [Hg [Hns [_ Hprops]]]]]]]];
        exists pattern; (split; [exact Hp |]).
      * now left.
      * right. split; [exact Hnone |]. exists n. repeat split; auto.
        rewrite Hprops. unfold stamp. now rewrite Hts.
Qed.

Lemma timestamp_stamping_witness :
  (exists n,
      run_createQuery (person_service (answering []) None) ada_bag 1700 [] = Some ([n], [n]) /\
      get (node_props n) "createdAt" = Some (num 1700)) /\
  cypher (createQuery (plain_person_service (answering []) None) ada_bag) =
    "CREATE (n:`Person`) SET n=$props RETURN properties(n) AS created".
Proof.
  split.
  - destruct (timestamp_stamping bag (person_service (answering []) None) ada_bag 1700 [])
      as [Hset _].
    destruct Hset as (_ & Hcreate & _); [discriminate | exact Hcreate].
  - destruct (timestamp_stamping bag (plain_person_service (answering []) None) ada_bag 1700 [])
      as [_ Hunset].
    destruct (Hunset eq_refl) as (Htext & _). exact Htext.
Defined.





(* ===================================================================== *)
(** ** Logging *)
(* ===================================================================== *)


Lemma runWithDebug_quiet {T : Type} (self : Neo4jModelService T) (c : string) (o : Options) :
  logger_returns self ->
  _runWithDebug self c o =
  (res <- run (neo4jService self) c o ;; Ok (map toObject (records res))).
Proof.
  intros Hq. unfold _runWithDebug. rewrite Hq. cbn [bind].
  destruct (run (neo4jService self) c o) as [res | e]; cbn [bind]; [| reflexivity].
  now rewrite Hq.
Qed.






(* ===================================================================== *)
(** ** The literals of [JSON.stringify] can be read back *)
(* ===================================================================== *)

(** Whatever follows the literal of a value in a statement (a comma, a
    bracket, a brace), the text determines the literal: two bags with the
    same keys give the same pattern when their values have the same
    literals, and only then. *)

Lemma append_assoc (a b c : string) : (a ++ b) ++ c = a ++ b ++ c.
Proof. induction a as [| x a IH]; cbn; [reflexivity | now rewrite IH]. Qed.

Lemma append_inv_head (a b c : string) : a ++ b = a ++ c -> b = c.
Proof.
  induction a as [| x a IH]; cbn; intros H; [exact H |].
  inversion H. now apply IH.
Qed.

Lemma json_escape_first (c : ascii) (rest rest' : string) :
  json_escape_char c ++ rest <> String dquote rest'.
Proof.
  destruct c as [[] [] [] [] [] [] [] []]; cbn; intros H; discriminate H.
Qed.

(** The code of [json_escape_char] is a prefix code: what comes first in
    a text decides the character. *)
Lemma unescape_head_escape (c : ascii) (rest : string) :
  unescape_head (json_escape_char c ++ rest) = Some (c, rest).
Proof.
  destruct c as [[] [] [] [] [] [] [] []]; reflexivity.
Qed.

Lemma json_escape_char_unique (c c' : ascii) (rest rest' : string) :
  json_escape_char c ++ rest = json_escape_char c' ++ rest' -> c = c' /\ rest = rest'.
Proof.
  intros H. apply (f_equal unescape_head) in H.
  rewrite !unescape_head_escape in H. inversion H. now split.
Qed.

Lemma json_escape_unique (s s' r r' : string) :
  json_escape s ++ String dquote r = json_escape s' ++ String dquote r' ->
  s = s' /\ r = r'.
Proof.
  revert s'. induction s as [| c s IH]; intros [| c' s']; cbn; intros H.
  - inversion H. now split.
  - rewrite append_assoc in H. symmetry in H. now apply json_escape_first in H.
  - rewrite append_assoc in H. now apply json_escape_first in H.
  - rewrite !append_assoc in H. apply json_escape_char_unique in H.
    destruct H as [-> H]. apply IH in H. destruct H as [-> ->]. now split.
Qed.

Lemma json_quote_unique (s s' r r' : string) :
  json_quote s ++ r = json_quote s' ++ r' -> s = s' /\ r = r'.
Proof.
  unfold json_quote. cbn. rewrite !append_assoc. cbn.
  intros H. inversion H. now apply json_escape_unique.
Qed.

Lemma string_of_uint_digits (d : Decimal.uint) : all_digits (NilEmpty.string_of_uint d) = true.
Proof. induction d; cbn; auto. Qed.

Lemma digits_unique (a a' r r' : string) :
  all_digits a = true -> all_digits a' = true ->
  stops_number r -> stops_number r' ->
  a ++ r = a' ++ r' -> a = a' /\ r = r'.
Proof.
  revert a'. induction a as [| c a IH]; intros [| c' a']; cbn; intros Ha Ha' Hr Hr' H.
  - now split.
  - subst r. cbn in Hr. apply andb_true_iff in Ha'. destruct Ha' as [Hc _]. congruence.
  - subst r'. cbn in Hr'. apply andb_true_iff in Ha. destruct Ha as [Hc _]. congruence.
  - inversion H; subst.
    apply andb_true_iff in Ha. apply andb_true_iff in Ha'.
    destruct (IH a' (proj2 Ha) (proj2 Ha') Hr Hr' H2) as [-> ->]. now split.
Qed.

(** A number is written as a run of digits, after a minus sign when it
    is negative. *)
Lemma json_number_shape (n : Z) :
  exists c ds,
    is_digit c = true /\ all_digits ds = true /\
    (json_number n = String c ds \/ json_number n = String "-" (String c ds)).
Proof.
  assert (Hpos : forall p, exists c ds,
               is_digit c = true /\ all_digits ds = true /\
               NilZero.string_of_uint (Pos.to_uint p) = String c ds).
  { intros p. pose proof (DecimalPos.Unsigned.to_uint_nonnil p) as Hnn.
    pose proof (string_of_uint_digits (Pos.to_uint p)) as Hd.
    destruct (Pos.to_uint p) eqn:E; [contradiction | ..]; cbn in *;
      eexists; eexists; (split; [| split; [exact Hd | reflexivity]]); reflexivity. }
  destruct n as [| p | p]; unfold json_number; cbn [Z.to_int NilZero.string_of_int].
  - exists "0"%char, ""%string. repeat split. now left.
  - destruct (Hpos p) as [c [ds [Hc [Hds E]]]]. exists c, ds. repeat split; auto.
  - destruct (Hpos p) as [c [ds [Hc [Hds E]]]]. exists c, ds. repeat split; auto.
    right. now rewrite E.
Qed.

Lemma json_number_unique (n n' : Z) (r r' : string) :
  stops_number r -> stops_number r' ->
  json_number n ++ r = json_number n' ++ r' ->
  json_number n = json_number n' /\ r = r'.
Proof.
  intros Hr Hr' H.
  destruct (json_number_shape n) as [c [ds [Hc [Hds [E | E]]]]];
    destruct (json_number_shape n') as [c' [ds' [Hc' [Hds' [E' | E']]]]];
    rewrite E, E' in *; cbn in H.
  - injection H as Ec Hrest. subst c'.
    destruct (digits_unique _ _ _ _ Hds Hds' Hr Hr' Hrest) as [-> ->]. now split.
  - injection H as Ec _. subst c. discriminate Hc.
  - injection H as Ec _. subst c'. discriminate Hc'.
  - injection H as Ec Hrest. subst c'.
    destruct (digits_unique _ _ _ _ Hds Hds' Hr Hr' Hrest) as [-> ->]. now split.
Qed.

Lemma json_number_first (n : Z) (r : string) (c : ascii) (t : string) :
  json_number n ++ r = String c t -> is_digit c = true \/ c = "-"%char.
Proof.
  destruct (json_number_shape n) as [d [ds [Hd [_ [E | E]]]]]; rewrite E; cbn;
    intros H; injection H as <- _; auto.
Qed.

(** The first character of a scalar's literal. *)
Lemma stringify_scalar_first (x : scalar) (r : string) (c : ascii) (t : string) :
  stringify_scalar x ++ r = String c t ->
  c = dquote \/ is_digit c = true \/ c = "-"%char \/ c = "t"%char \/ c = "f"%char \/
  c = "n"%char.
Proof.
  destruct x as [s | n | [|] | negative]; cbn [stringify_scalar].
  - unfold json_quote. cbn. intros H. injection H as <- _. now left.
  - intros H. apply json_number_first in H. tauto.
  - cbn. intros H. injection H as <- _. tauto.
  - cbn. intros H. injection H as <- _. tauto.
  - cbn. intros H. injection H as <- _. tauto.
Qed.

Ltac first_character H :=
  apply stringify_scalar_first in H;
  destruct H as [H | [H | [H | [H | [H | H]]]]]; discriminate H.

Ltac number_first_character H :=
  apply json_number_first in H; destruct H as [H | H]; discriminate H.

(** The literal of a scalar, whatever follows it.  (The two infinities
    share the literal [null].) *)
Lemma stringify_scalar_unique (x y : scalar) (r r' : string) :
  stops_number r -> stops_number r' ->
  stringify_scalar x ++ r = stringify_scalar y ++ r' ->
  stringify_scalar x = stringify_scalar y /\ r = r'.
Proof.
  intros Hr Hr' H.
  destruct x as [s | n | [|] | negative], y as [s' | n' | [|] | negative'];
    cbn [stringify_scalar] in *;
    try (apply json_quote_unique in H; destruct H as [-> ->]; now split);
    try (apply json_number_unique in H; auto; fail);
    try (unfold json_quote in H; cbn in H; discriminate H);
    try (cbn in H; injection H as ->; now split);
    try (unfold json_quote in H; cbn in H; number_first_character H);
    try (symmetry in H; unfold json_quote in H; cbn in H; number_first_character H).
Qed.

Lemma join_comma_cons (x : string) (l : list string) (rest : string) :
  join_comma (x :: l) ++ rest =
  x ++ match l with
       | [] => rest
       | _ :: _ => String "," (join_comma l ++ rest)
       end.
Proof.
  destruct l as [| y l]; [reflexivity |].
  unfold join_comma. cbn [String.concat]. now rewrite append_assoc.
Qed.

Lemma stops_after_item (l : list string) (closer : ascii) (rest : string) :
  is_digit closer = false ->
  stops_number match l with
               | [] => String closer rest
               | _ :: _ => String "," (join_comma l ++ String closer rest)
               end.
Proof. intros H. destruct l; [exact H | reflexivity]. Qed.

(** The elements of an array literal. *)
Lemma scalars_unique (xs ys : list scalar) (r r' : string) :
  join_comma (map stringify_scalar xs) ++ String "]" r =
  join_comma (map stringify_scalar ys) ++ String "]" r' ->
  map stringify_scalar xs = map stringify_scalar ys /\ r = r'.
Proof.
  revert ys. induction xs as [| x xs IH]; intros [| y ys] H.
  - cbn in H. injection H as ->. now split.
  - cbn [map] in H. rewrite join_comma_cons in H. symmetry in H. cbn in H.
    first_character H.
  - cbn [map] in H. rewrite join_comma_cons in H. cbn in H. first_character H.
  - cbn [map] in H. rewrite !join_comma_cons in H.
    apply stringify_scalar_unique in H; try (apply stops_after_item; reflexivity).
    destruct H as [Hx H]. cbn [map]. rewrite Hx.
    destruct xs as [| x' xs], ys as [| y' ys]; cbn [map] in H.
    + injection H as ->. now split.
    + discriminate H.
    + discriminate H.
    + injection H as H. apply (IH (y' :: ys)) in H. destruct H as [Hxs ->].
      rewrite Hxs. now split.
Qed.

(** The literal of a value, whatever follows it. *)
Lemma JSON_stringify_unique (v w : value) (r r' : string) :
  stops_number r -> stops_number r' ->
  JSON_stringify v ++ r = JSON_stringify w ++ r' ->
  JSON_stringify v = JSON_stringify w /\ r = r'.
Proof.
  intros Hr Hr' H. destruct v as [x | xs], w as [y | ys]; cbn [JSON_stringify] in *.
  - now apply stringify_scalar_unique in H.
  - cbn in H. first_character H.
  - symmetry in H. cbn in H. first_character H.
  - cbn in H. rewrite !append_assoc in H. cbn in H. injection H as H.
    apply scalars_unique in H. destruct H as [Hxs ->]. rewrite Hxs. now split.
Qed.

Lemma literal_entries (b : bag) :
  wf_bag b -> map (literal_entry b) (Object_keys b) = map entry_text b.
Proof.
  intros Hwf. unfold Object_keys. rewrite map_map. apply map_ext_in.
  intros [k v] Hin. unfold literal_entry, entry_text. cbn [fst snd].
  now rewrite (get_In b k v Hwf Hin).
Qed.

Lemma entry_text_append (k : string) (v : value) (rest : string) :
  entry_text (k, v) ++ rest = ("`" ++ k ++ "`:") ++ JSON_stringify v ++ rest.
Proof. unfold entry_text. cbn [fst snd]. now rewrite !append_assoc. Qed.

(** The entries of a literal pattern over given keys. *)
Lemma entries_unique (b b' : bag) (r r' : string) :
  Object_keys b = Object_keys b' ->
  join_comma (map entry_text b) ++ String "}" r =
  join_comma (map entry_text b') ++ String "}" r' ->
  literals b = literals b' /\ r = r'.
Proof.
  revert b'. induction b as [| [k v] b IH]; intros [| [k' v'] b'] Hk H;
    try discriminate Hk.
  - cbn in H. injection H as ->. now split.
  - cbn in Hk. injection Hk as <- Hk.
    cbn [map] in H. rewrite !join_comma_cons, !entry_text_append in H.
    apply append_inv_head in H.
    apply JSON_stringify_unique in H; try (apply stops_after_item; reflexivity).
    destruct H as [Hv H]. unfold literals. cbn [map snd]. rewrite Hv.
    destruct b as [| kv b], b' as [| kv' b']; try discriminate Hk; cbn [map] in H.
    + injection H as ->. now split.
    + injection H as H. apply (IH (kv' :: b') Hk) in H. destruct H as [Hl ->].
      unfold literals in Hl. rewrite Hl. now split.
Qed.

(** Entries with the same keys and the same literals are the same
    texts. *)
Lemma entry_texts_literals (b b' : bag) :
  Object_keys b = Object_keys b' -> literals b = literals b' ->
  map entry_text b = map entry_text b'.
Proof.
  revert b'. induction b as [| [k v] b IH]; intros [| [k' v'] b'] Hk Hl;
    try discriminate Hk; [reflexivity |].
  cbn in Hk. injection Hk as <- Hk.
  unfold literals in Hl. cbn [map snd] in Hl. injection Hl as Hv Hl.
  cbn [map]. unfold entry_text at 1 3. cbn [fst snd]. rewrite Hv.
  f_equal. now apply IH.
Qed.

(** Two bags with the same keys are written out as the same pattern when
    their values have the same literals, and only then. *)
Lemma match_literal_literals (lbl : string) (b b' : bag) :
  wf_bag b -> wf_bag b' -> Object_keys b = Object_keys b' ->
  (match_literal lbl b = match_literal lbl b' <-> literals b = literals b').
Proof.
  intros Hwf Hwf' Hk. unfold match_literal.
  rewrite (literal_entries b Hwf), (literal_entries b' Hwf').
  split; intros H.
  - change ("MATCH (n:`" ++ lbl ++ "`{" ++ join_comma (map entry_text b) ++ "})")
      with ("MATCH (n:`" ++ (lbl ++ "`{" ++ join_comma (map entry_text b) ++ String "}" ")")) in H.
    change ("MATCH (n:`" ++ lbl ++ "`{" ++ join_comma (map entry_text b') ++ "})")
      with ("MATCH (n:`" ++ (lbl ++ "`{" ++ join_comma (map entry_text b') ++ String "}" ")")) in H.
    apply append_inv_head in H. apply append_inv_head in H. apply append_inv_head in H.
    now apply entries_unique in H.
  - now rewrite (entry_texts_literals b b' Hk H).
Qed.

(* ===================================================================== *)
(** ** Values in the statement text *)
(* ===================================================================== *)

Lemma deleteQuery_text {T : Type} (self : Neo4jModelService T) (props : bag) :
  cypher (deleteQuery self props) =
  match_literal (label self) props ++
  " WITH n, properties(n) AS deleted DELETE n RETURN deleted".
Proof.
  unfold deleteQuery, match_literal. cbn [cypher]. now rewrite !append_assoc.
Qed.

Lemma findByQuery_text {T : Type} (self : Neo4jModelService T) (fp : FindByParams) :
  cypher (findByQuery self fp) =
  match_literal (label self) (toNeo4j self (find_props fp)) ++
  " RETURN properties(n) AS matched" ++
  order_clause (orderBy (find_page fp)) (descending (find_page fp)) ++
  " SKIP $skip LIMIT $limit".
Proof.
  unfold findByQuery, match_literal. cbn [cypher]. now rewrite !append_assoc.
Qed.

Lemma In_entry_text (b : bag) (k : string) (v : value) :
  wf_bag b -> In (k, v) b ->
  In ("`" ++ k ++ "`:" ++ JSON_stringify v) (map (literal_entry b) (Object_keys b)).
Proof.
  intros Hwf Hin. rewrite (literal_entries b Hwf).
  now apply (in_map entry_text b (k, v)).
Qed.

(** C2 (amended). The statements of [create] and [merge] do not depend
    on the values of the bag, which travel in the bound [$props] (the bag
    [toNeo4j] returns); the statements of [findAll] and [searchBy] do not
    depend on the bounds or on the terms, which travel in [$skip],
    [$limit] and [$terms].  The statements of [delete] and [findBy] write
    every value into the text of the MATCH pattern as the literal
    [JSON.stringify] gives for it, so that two bags with the same keys
    give the same pattern when their values have the same literals, and
    only then.  [findBy] binds [$skip] and [$limit] and nothing else;
    [delete] has no SKIP or LIMIT clause and binds [$props] alone, to
    which the fixed clauses after its pattern do not refer. *)
Theorem values_in_statements (T : Type) (self : Neo4jModelService T) :
  (value_free (createQuery self) /\ value_free (mergeQuery self)) /\
  (forall props,
      params (options (createQuery self props)) =
        [("props", PProps (toNeo4j self props))] /\
      params (options (mergeQuery self props)) =
        [("props", PProps (toNeo4j self props))]) /\
  (forall sl sl' ob desc,
      cypher (findAllQuery self (Some {| page := sl; orderBy := ob; descending := desc |})) =
      cypher (findAllQuery self (Some {| page := sl'; orderBy := ob; descending := desc |})) /\
      params (options (findAllQuery self
                         (Some {| page := sl; orderBy := ob; descending := desc |}))) =
        [("skip", PInt (neo4j_int (or_default (skip sl) 0)));
         ("limit", PInt (neo4j_int (or_default (limit sl) 10)))]) /\
  (forall p ts ts' sl sl',
      cypher (searchByQuery self {| prop := p; terms := ts; search_page := sl |}) =
      cypher (searchByQuery self {| prop := p; terms := ts'; search_page := sl' |}) /\
      params (options (searchByQuery self {| prop := p; terms := ts; search_page := sl |})) =
        [("terms", PTerms ts);
         ("skip", PInt (neo4j_int (or_default (skip sl) 0)));
         ("limit", PInt (neo4j_int (or_default (limit sl) 10)))]) /\
  (forall props,
      cypher (deleteQuery self props) =
        match_literal (label self) props ++
        " WITH n, properties(n) AS deleted DELETE n RETURN deleted" /\
      params (options (deleteQuery self props)) =
        [("props", PProps (toNeo4j self props))]) /\
  (forall props sl sl' ob desc,
      cypher (findByQuery self (find props {| page := sl; orderBy := ob; descending := desc |})) =
        match_literal (label self) (toNeo4j self props) ++
        " RETURN properties(n) AS matched" ++ order_clause ob desc ++
        " SKIP $skip LIMIT $limit" /\
      cypher (findByQuery self (find props {| page := sl; orderBy := ob; descending := desc |})) =
      cypher (findByQuery self (find props {| page := sl'; orderBy := ob; descending := desc |})) /\
      params (options (findByQuery self
                         (find props {| page := sl; orderBy := ob; descending := desc |}))) =
        [("skip", PInt (neo4j_int (or_default (skip sl) 0)));
         ("limit", PInt (neo4j_int (or_default (limit sl) 10)))]) /\
  (forall b k v,
      wf_bag b -> In (k, v) b ->
      In ("`" ++ k ++ "`:" ++ JSON_stringify v) (map (literal_entry b) (Object_keys b))) /\
  (forall lbl b b',
      wf_bag b -> wf_bag b' -> Object_keys b = Object_keys b' ->
      (match_literal lbl b = match_literal lbl b' <-> literals b = literals b')).
Proof.
  split; [split |].
  - intros p p' Hk. unfold createQuery. cbn [cypher]. reflexivity.
  - intros p p' Hk. unfold mergeQuery. cbn [cypher]. now rewrite Hk.
  - split; [intros props; split; reflexivity |].
    split; [intros sl sl' ob desc; split; reflexivity |].
    split; [intros p ts ts' sl sl'; split; reflexivity |].
    split; [intros props; split; [apply deleteQuery_text | reflexivity] |].
    split.
    + intros props sl sl' ob desc. split; [| split; reflexivity].
      exact (findByQuery_text self
               (find props {| page := sl; orderBy := ob; descending := desc |})).
    + split.
      * intros b k v. apply In_entry_text.
      * intros lbl b b'. apply match_literal_literals.
Qed.

Lemma values_in_statements_witness :
  wf_bag ada_bag /\
  match_literal "Person" ada_bag <>
  match_literal "Person" [("name", str "Ada"); ("city", str "Rome")].
Proof.
  assert (Hwf : wf_bag ada_bag).
  { unfold wf_bag. cbn. repeat constructor; cbn; intuition discriminate. }
  assert (Hwf' : wf_bag [("name", str "Ada"); ("city", str "Rome")]).
  { unfold wf_bag. cbn. repeat constructor; cbn; intuition discriminate. }
  split; [exact Hwf |].
  destruct (values_in_statements bag (person_service (answering []) None))
    as (_ & _ & _ & _ & _ & _ & _ & Hliterals).
  intros H. apply (Hliterals "Person" ada_bag _ Hwf Hwf' eq_refl) in H.
  discriminate H.
Defined.

(** C2, as stated, fails for [delete] and [findBy]: two bags with the
    same key and different values give different statement texts, the
    value standing in the text as a literal. *)
Lemma values_in_statements_counterexample :
  ~ value_free (deleteQuery (person_service (answering []) None)) /\
  ~ value_free (fun props => findByQuery (person_service (answering []) None)
                                         (find props first_page)) /\
  cypher (deleteQuery (person_service (answering []) None) [("name", str "Ada")]) =
    "MATCH (n:`Person`{`name`:" ++ String dquote "Ada" ++ String dquote
    "}) WITH n, properties(n) AS deleted DELETE n RETURN deleted" /\
  cypher (findByQuery (person_service (answering []) None)
                      (find [("name", str "Ada")] first_page)) =
    "MATCH (n:`Person`{`name`:" ++ String dquote "Ada" ++ String dquote
    "}) RETURN properties(n) AS matched SKIP $skip LIMIT $limit".
Proof.
  split; [| split; [| split; reflexivity]].
  - intros H. specialize (H [("name", str "Ada")] [("name", str "Bob")] eq_refl).
    discriminate H.
  - intros H. specialize (H [("name", str "Ada")] [("name", str "Bob")] eq_refl).
    discriminate H.
Qed.

(** C10 (amended). The statement [delete] builds writes out the values of
    the bag the caller passed, whatever the service's [toNeo4j] does,
    while the statement [findBy] builds writes out the values of the bag
    [toNeo4j] returns.  With the hooks of the base class the two patterns
    are the same.  With an override that keeps the keys and their order,
    the two patterns differ when the override changes the literal
    [JSON.stringify] gives for some value, and only then. *)
Theorem delete_and_findBy_patterns (T : Type) (self : Neo4jModelService T)
    (props : bag) (pp : PageParams) :
  (forall (self' : Neo4jModelService T),
      label self' = label self ->
      cypher (deleteQuery self' props) = cypher (deleteQuery self props)) /\
  cypher (deleteQuery self props) =
    match_literal (label self) props ++
    " WITH n, properties(n) AS deleted DELETE n RETURN deleted" /\
  cypher (findByQuery self (find props pp)) =
    match_literal (label self) (toNeo4j self props) ++
    " RETURN properties(n) AS matched" ++
    order_clause (orderBy pp) (descending pp) ++ " SKIP $skip LIMIT $limit" /\
  (wf_bag props -> (forall x, toNeo4j self x = spread x) ->
   match_literal (label self) (toNeo4j self props) = match_literal (label self) props) /\
  (wf_bag props -> wf_bag (toNeo4j self props) ->
   Object_keys (toNeo4j self props) = Object_keys props ->
   (match_literal (label self) (toNeo4j self props) <> match_literal (label self) props <->
    literals (toNeo4j self props) <> literals props)).
Proof.
  split; [| split; [| split; [| split]]].
  - intros self' Hl. unfold deleteQuery. cbn [cypher]. now rewrite Hl.
  - apply deleteQuery_text.
  - exact (findByQuery_text self (find props pp)).
  - intros Hwf Hdefault. now rewrite Hdefault, (spread_wf props Hwf).
  - intros Hwf Hwf' Hk.
    pose proof (match_literal_literals (label self) _ _ Hwf' Hwf Hk) as Hiff.
    split; intros Hne H; apply Hne; now apply Hiff.
Qed.

Lemma delete_and_findBy_patterns_witness :
  match_literal "Person" (toNeo4j (person_service (answering []) None) ada_bag) =
  match_literal "Person" ada_bag /\
  match_literal "Person" (toNeo4j (marking_service (answering [])) ada_bag) <>
  match_literal "Person" ada_bag.
Proof.
  assert (Hwf : wf_bag ada_bag).
  { unfold wf_bag. cbn. repeat constructor; cbn; intuition discriminate. }
  split.
  - destruct (delete_and_findBy_patterns bag (person_service (answering []) None)
                ada_bag first_page) as (_ & _ & _ & Hsame & _).
    apply Hsame; [exact Hwf | reflexivity].
  - destruct (delete_and_findBy_patterns bag (marking_service (answering []))
                ada_bag first_page) as (_ & _ & _ & _ & Hdiffer).
    apply Hdiffer; [exact Hwf | | reflexivity | discriminate].
    unfold wf_bag. cbn. repeat constructor; cbn; intuition discriminate.
Defined.

(** C10, as stated, fails for an override that changes a value and not
    its literal.  The override turns [Infinity] into [-Infinity]; both
    are written [null], and the statements of [delete] and [findBy] hold
    the same pattern. *)
Lemma delete_and_findBy_patterns_counterexample :
  toNeo4j (negating_service (answering [])) unlimited_credit <> unlimited_credit /\
  Object_keys (toNeo4j (negating_service (answering [])) unlimited_credit) =
    Object_keys unlimited_credit /\
  cypher (deleteQuery (negating_service (answering [])) unlimited_credit) =
    "MATCH (n:`Account`{`credit`:null})" ++
    " WITH n, properties(n) AS deleted DELETE n RETURN deleted" /\
  cypher (findByQuery (negating_service (answering [])) (find unlimited_credit first_page)) =
    "MATCH (n:`Account`{`credit`:null})" ++
    " RETURN properties(n) AS matched SKIP $skip LIMIT $limit".
Proof.
  split; [discriminate |]. repeat split.
Qed.

(* ===================================================================== *)
(** ** Configuration objects *)
(* ===================================================================== *)

Lemma field_omit (ks : list string) (o : config) (k : string) :
  field (omit ks o) k = if existsb (String.eqb k) ks then None else field o k.
Proof.
  unfold omit. induction o as [| [k' v] o IH]; cbn [filter field fst].
  - now destruct (existsb (String.eqb k) ks).
  - destruct (existsb (String.eqb k') ks) eqn:Hk'; cbn [negb field].
    + rewrite IH. destruct (String.eqb_spec k' k) as [-> | Hne]; [| reflexivity].
      now rewrite Hk'.
    + destruct (String.eqb_spec k' k) as [-> | Hne].
      * now rewrite Hk'.
      * exact IH.
Qed.

Lemma field_with_field_same (o : config) (k : string) (v : setting) :
  field (with_field o k v) k = Some v.
Proof.
  induction o as [| [k' v'] o IH]; cbn.
  - now rewrite String.eqb_refl.
  - destruct (String.eqb_spec k' k) as [-> | Hne]; cbn.
    + now rewrite String.eqb_refl.
    + destruct (String.eqb_spec k' k); [contradiction | exact IH].
Qed.

Lemma field_with_field_other (o : config) (k k' : string) (v : setting) :
  k <> k' -> field (with_field o k v) k' = field o k'.
Proof.
  intros Hne. induction o as [| [k0 v0] o IH]; cbn.
  - destruct (String.eqb_spec k k'); [contradiction | reflexivity].
  - destruct (String.eqb_spec k0 k) as [-> | Hne0]; cbn.
    + destruct (String.eqb_spec k k'); [contradiction | reflexivity].
    + destruct (String.eqb_spec k0 k'); [reflexivity | exact IH].
Qed.

Lemma with_field_fresh (o : config) (k : string) (v : setting) :
  ~ In k (config_keys o) -> with_field o k v = (o ++ [(k, v)])%list.
Proof.
  induction o as [| [k' v'] o IH]; intros Hk; cbn.
  - reflexivity.
  - destruct (String.eqb_spec k' k) as [-> | Hne].
    + exfalso. apply Hk. now left.
    + rewrite IH; [reflexivity |]. intros Hin. apply Hk. now right.
Qed.

Lemma copy_onto (o target : config) :
  NoDup (config_keys target ++ config_keys o)%list ->
  fold_left (fun tg kv => with_field tg (fst kv) (snd kv)) o target = (target ++ o)%list.
Proof.
  revert target. induction o as [| [k v] o IH]; intros target Hnd; cbn.
  - now rewrite app_nil_r.
  - cbn in Hnd. rewrite with_field_fresh.
    + rewrite IH.
      * now rewrite <- app_assoc.
      * unfold config_keys. rewrite map_app, <- app_assoc. exact Hnd.
    + apply NoDup_remove_2 in Hnd. intros Hin. apply Hnd.
      apply in_or_app. now left.
Qed.

Lemma copy_wf (o : config) : wf_config o -> copy o = o.
Proof. intros Hwf. unfold copy. now rewrite copy_onto. Qed.

Lemma omit_wf (ks : list string) (o : config) : wf_config o -> wf_config (omit ks o).
Proof.
  unfold wf_config, config_keys, omit.
  induction o as [| [k v] o IH]; intros Hwf; cbn [filter map fst].
  - constructor.
  - cbn [map fst] in Hwf. inversion Hwf as [| ? ? Hnotin Hwf']; subst.
    destruct (existsb (String.eqb k) ks); cbn [negb map fst].
    + now apply IH.
    + constructor; [| now apply IH].
      intros Hin. apply Hnotin. apply in_map_iff in Hin.
      destruct Hin as [[k' v'] [Hk Hin]]. cbn in Hk. subst k'.
      apply filter_In in Hin. destruct Hin as [Hin _].
      change k with (fst (k, v')). now apply in_map.
Qed.

Lemma with_field_keys (o : config) (k : string) (v : setting) :
  In k (config_keys o) -> config_keys (with_field o k v) = config_keys o.
Proof.
  induction o as [| [k' v'] o IH]; cbn; intros Hin.
  - contradiction.
  - destruct (String.eqb_spec k' k) as [-> | Hne]; cbn.
    + reflexivity.
    + f_equal. apply IH. destruct Hin as [Heq | Hin]; [contradiction | exact Hin].
Qed.

Lemma with_field_wf (o : config) (k : string) (v : setting) :
  wf_config o -> wf_config (with_field o k v).
Proof.
  intros Hwf. unfold wf_config.
  destruct (in_dec string_dec k (config_keys o)) as [Hin | Hnotin].
  - now rewrite with_field_keys.
  - rewrite with_field_fresh by exact Hnotin.
    unfold config_keys. rewrite map_app. cbn [map fst].
    apply (Permutation_NoDup (l := k :: map fst o)).
    + apply Permutation_cons_append.
    + now constructor.
Qed.

Lemma with_field_twice (o : config) (k : string) (v w : setting) :
  with_field (with_field o k v) k w = with_field o k w.
Proof.
  induction o as [| [k' v'] o IH]; cbn.
  - now rewrite String.eqb_refl.
  - destruct (String.eqb_spec k' k) as [-> | Hne]; cbn.
    + now rewrite String.eqb_refl.
    + destruct (String.eqb_spec k' k); [contradiction | now rewrite IH].
Qed.

(* ===================================================================== *)
(** ** The connection module: what reaches the driver *)
(* ===================================================================== *)

Lemma createDriver_Ok (construct verify : Driver -> result unit) (cfg : config) (d : Driver) :
  createDriver construct verify cfg = Ok d ->
  url d = template (field cfg "scheme") ++ "://" ++ template (field cfg "host") ++ ":" ++
          template (field cfg "port") /\
  driver_config d = omit ["scheme"; "host"; "port"; "username"; "password"] cfg /\
  auth d =
    (if negb (truthy_setting (field cfg "username")) ||
        negb (truthy_setting (field cfg "password")) then None
     else match field cfg "username", field cfg "password" with
          | Some u, Some pw => Some (auth_basic u pw)
          | _, _ => None
          end).
Proof.
  unfold createDriver. cbv zeta.
  match goal with |- (bind (construct ?x) _) = _ -> _ => destruct (construct x) end;
    cbn [bind]; [| discriminate].
  match goal with |- (bind (verify ?x) _) = _ -> _ => destruct (verify x) end;
    cbn [bind]; intros H; [| discriminate].
  inversion H; subst d. cbn [url auth driver_config]. repeat split.
Qed.

Lemma createNeptuneDriver_Ok (construct verify : Driver -> result unit)
    (sign : option setting -> option setting -> option setting -> result string)
    (cfg : config) (d : Driver) :
  createNeptuneDriver construct verify sign cfg = Ok d ->
  exists signed,
    sign (field cfg "host") (field cfg "port") (field cfg "region") = Ok signed /\
    url d = "bolt://" ++ template (field cfg "host") ++ ":" ++ template (field cfg "port") /\
    auth d = Some {| auth_scheme := "basic"; principal := Plain (str "username");
                     credentials := Plain (str signed); realm := Some "realm" |} /\
    driver_config d =
      with_field
        (with_field (copy (omit ["host"; "port"; "region"] cfg))
                    "encrypted" (Plain (str "ENCRYPTION_ON")))
        "trust" (Plain (str "TRUST_SYSTEM_CA_SIGNED_CERTIFICATES")).
Proof.
  unfold createNeptuneDriver. cbv zeta.
  destruct (sign (field cfg "host") (field cfg "port") (field cfg "region")) as [signed | e];
    cbn [bind]; [| discriminate].
  match goal with |- (bind (construct ?x) _) = _ -> _ => destruct (construct x) end;
    cbn [bind]; [| discriminate].
  match goal with |- (bind (verify ?x) _) = _ -> _ => destruct (verify x) end;
    cbn [bind]; intros H; [| discriminate].
  inversion H; subst d. exists signed. cbn [url auth driver_config]. repeat split.
Qed.

(** X1. The driver that [createDriver] makes is never handed the scheme,
    the host, the port, the user name or the password as driver options;
    every other setting of the configuration reaches the driver
    unchanged. *)
Theorem createDriver_driver_options (construct verify : Driver -> result unit) (cfg : config)
    (d : Driver) :
  createDriver construct verify cfg = Ok d ->
  (forall k, In k ["scheme"; "host"; "port"; "username"; "password"] ->
             field (driver_config d) k = None) /\
  (forall k, ~ In k ["scheme"; "host"; "port"; "username"; "password"] ->
             field (driver_config d) k = field cfg k).
Proof.
  intros H. apply createDriver_Ok in H. destruct H as (_ & Hcfg & _).
  rewrite Hcfg. split; intros k Hk; rewrite field_omit.
  - cbn in Hk. destruct Hk as [<- | [<- | [<- | [<- | [<- | []]]]]]; reflexivity.
  - destruct (existsb (String.eqb k) _) eqn:He; [| reflexivity].
    exfalso. apply Hk. apply existsb_exists in He. destruct He as [x [Hx Heq]].
    apply String.eqb_eq in Heq. now subst x.
Qed.

Lemma createDriver_driver_options_witness :
  createDriver known_scheme reachable neo4j_config =
    Ok {| url := "neo4j://db.local:7687";
          auth := Some (auth_basic (Plain (str "neo4j")) (Plain (str "secret")));
          driver_config := [("maxConnectionPoolSize", Plain (num 50))] |} /\
  field [("maxConnectionPoolSize", Plain (num 50))] "password" = None.
Proof.
  split; [reflexivity |].
  apply (createDriver_driver_options known_scheme reachable neo4j_config
           {| url := "neo4j://db.local:7687";
              auth := Some (auth_basic (Plain (str "neo4j")) (Plain (str "secret")));
              driver_config := [("maxConnectionPoolSize", Plain (num 50))] |}).
  - reflexivity.
  - cbn. tauto.
Defined.

Lemma createNeptuneDriver_options (construct verify : Driver -> result unit)
    (sign : option setting -> option setting -> option setting -> result string)
    (cfg : config) (d : Driver) :
  wf_config cfg ->
  createNeptuneDriver construct verify sign cfg = Ok d ->
  field (driver_config d) "encrypted" = Some (Plain (str "ENCRYPTION_ON")) /\
  field (driver_config d) "trust" = Some (Plain (str "TRUST_SYSTEM_CA_SIGNED_CERTIFICATES")) /\
  forall k, k <> "encrypted" -> k <> "trust" ->
            field (driver_config d) k =
            if existsb (String.eqb k) ["host"; "port"; "region"] then None else field cfg k.
Proof.
  intros Hwf H. apply createNeptuneDriver_Ok in H.
  destruct H as [signed (_ & _ & _ & Hcfg)]. rewrite Hcfg.
  split; [| split].
  - rewrite field_with_field_other by discriminate. apply field_with_field_same.
  - apply field_with_field_same.
  - intros k He Ht.
    rewrite field_with_field_other by congruence.
    rewrite field_with_field_other by congruence.
    rewrite (copy_wf _ (omit_wf _ _ Hwf)). apply field_omit.
Qed.

(** X2. Whatever the configuration says, the driver that
    [createNeptuneDriver] makes connects over [bolt://] with encryption
    on and trust in the system's certificate authorities: settings
    [encrypted] and [trust] of the caller are replaced.  Host, port and
    region are no driver options; every other setting reaches the driver
    unchanged. *)
Theorem createNeptuneDriver_forces_encryption (construct verify : Driver -> result unit)
    (sign : option setting -> option setting -> option setting -> result string)
    (cfg : config) (d : Driver) :
  wf_config cfg ->
  createNeptuneDriver construct verify sign cfg = Ok d ->
  url d = "bolt://" ++ template (field cfg "host") ++ ":" ++ template (field cfg "port") /\
  field (driver_config d) "encrypted" = Some (Plain (str "ENCRYPTION_ON")) /\
  field (driver_config d) "trust" = Some (Plain (str "TRUST_SYSTEM_CA_SIGNED_CERTIFICATES")) /\
  (forall k, In k ["host"; "port"; "region"] -> field (driver_config d) k = None) /\
  (forall k, ~ In k ["host"; "port"; "region"; "encrypted"; "trust"] ->
             field (driver_config d) k = field cfg k).
Proof.
  intros Hwf H.
  destruct (createNeptuneDriver_options construct verify sign cfg d Hwf H) as (Henc & Htrust & Hother).
  apply createNeptuneDriver_Ok in H. destruct H as [signed (_ & Hurl & _)].
  split; [exact Hurl |]. split; [exact Henc |]. split; [exact Htrust |]. split.
  - intros k Hk. cbn in Hk.
    destruct Hk as [<- | [<- | [<- | []]]]; rewrite Hother; try discriminate; reflexivity.
  - intros k Hk. rewrite Hother.
    + destruct (existsb (String.eqb k) _) eqn:He; [| reflexivity].
      exfalso. apply Hk. apply existsb_exists in He. destruct He as [x [Hx Heq]].
      apply String.eqb_eq in Heq. subst x. cbn in Hx. cbn. tauto.
    + intros ->. apply Hk. cbn. tauto.
    + intros ->. apply Hk. cbn. tauto.
Qed.

Lemma createNeptuneDriver_forces_encryption_witness :
  wf_config neptune_config /\
  exists d,
    createNeptuneDriver known_scheme reachable (signing "signature") neptune_config = Ok d /\
    url d = "bolt://cluster.local:8182" /\
    field (driver_config d) "encrypted" = Some (Plain (str "ENCRYPTION_ON")).
Proof.
  assert (Hwf : wf_config neptune_config).
  { unfold wf_config. cbn. repeat constructor; cbn; intuition discriminate. }
  split; [exact Hwf |].
  eexists. split; [reflexivity |].
  match goal with
  | |- url ?d = _ /\ _ =>
      destruct (createNeptuneDriver_forces_encryption known_scheme reachable (signing "signature")
                  neptune_config d Hwf eq_refl) as (Hurl & Henc & _)
  end.
  split; [exact Hurl | exact Henc].
Defined.

Lemma isNeo4jConfig_scheme (cfg : config) (v : setting) :
  wf_config cfg ->
  isNeo4jConfig (with_field (copy cfg) "scheme" v) = isNeo4jConfig cfg.
Proof.
  intros Hwf. unfold isNeo4jConfig.
  rewrite field_with_field_other by discriminate. now rewrite (copy_wf cfg Hwf).
Qed.

(** X3. The configuration [forRoot] provides is the caller's when it
    holds a user name; otherwise it is the caller's with [scheme] set to
    [bolt] and every other setting kept.  Either way it is classified (as
    a Neo4j or a Neptune configuration) as the caller's was, so the driver
    factory, which is handed the provided configuration, takes the branch
    [forRoot] took; and providing it again changes nothing. *)
Theorem forRoot_provided_config (construct verify : Driver -> result unit)
    (sign : option setting -> option setting -> option setting -> result string)
    (cfg : config) :
  wf_config cfg ->
  let provided := provided_config (forRoot construct verify sign cfg) in
  (isNeo4jConfig cfg = true -> provided = cfg) /\
  (isNeo4jConfig cfg = false ->
   field provided "scheme" = Some (Plain (str "bolt"))) /\
  (forall k, k <> "scheme" -> field provided k = field cfg k) /\
  isNeo4jConfig provided = isNeo4jConfig cfg /\
  wf_config provided /\
  provided_config (forRoot construct verify sign provided) = provided.
Proof.
  intros Hwf provided. subst provided. unfold forRoot. cbn [provided_config].
  destruct (isNeo4jConfig cfg) eqn:Hneo.
  - rewrite Hneo. repeat split; auto. discriminate.
  - assert (Hwf' : wf_config (with_field (copy cfg) "scheme" (Plain (str "bolt")))).
    { apply with_field_wf. now rewrite (copy_wf cfg Hwf). }
    rewrite (isNeo4jConfig_scheme cfg _ Hwf), Hneo.
    split; [discriminate |]. split; [intros _; apply field_with_field_same |].
    split.
    { intros k Hk. rewrite field_with_field_other by congruence.
      now rewrite (copy_wf cfg Hwf). }
    split; [reflexivity |]. split; [exact Hwf' |].
    rewrite (copy_wf _ Hwf'). apply with_field_twice.
Qed.

Lemma forRoot_provided_config_witness :
  wf_config neptune_config /\
  provided_config (forRoot known_scheme reachable (signing "signature") neptune_config) =
    (neptune_config ++ [("scheme", Plain (str "bolt"))])%list /\
  isNeo4jConfig (provided_config (forRoot known_scheme reachable (signing "signature") neptune_config)) =
    isNeo4jConfig neptune_config.
Proof.
  assert (Hwf : wf_config neptune_config).
  { unfold wf_config. cbn. repeat constructor; cbn; intuition discriminate. }
  split; [exact Hwf |]. split; [reflexivity |].
  destruct (forRoot_provided_config known_scheme reachable (signing "signature") neptune_config Hwf)
    as (_ & _ & _ & Hsame & _).
  exact Hsame.
Defined.

(** X4. For a configuration that holds a user name, [forRoot] and
    [forRootAsync] make the same driver.  For one that does not, the
    driver [forRoot] makes is handed [scheme: bolt] among its options,
    whatever scheme the caller wrote, while the driver [forRootAsync]
    makes is handed the caller's scheme, or none. *)
Theorem forRoot_and_forRootAsync (construct verify : Driver -> result unit)
    (sign : option setting -> option setting -> option setting -> result string)
    (global : option setting) (cfg : config) :
  wf_config cfg ->
  (isNeo4jConfig cfg = true ->
   provided_driver (forRoot construct verify sign cfg) =
   provided_driver (forRootAsync construct verify sign global cfg)) /\
  (isNeo4jConfig cfg = false ->
   (forall d, provided_driver (forRoot construct verify sign cfg) = Ok d ->
              field (driver_config d) "scheme" = Some (Plain (str "bolt"))) /\
   (forall d, provided_driver (forRootAsync construct verify sign global cfg) = Ok d ->
              field (driver_config d) "scheme" = field cfg "scheme")).
Proof.
  intros Hwf. split.
  - intros Hneo. unfold provided_driver, forRoot, forRootAsync.
    cbn [driver_factory provided_config]. now rewrite Hneo.
  - intros Hneo.
    assert (Hwf' : wf_config (with_field (copy cfg) "scheme" (Plain (str "bolt")))).
    { apply with_field_wf. now rewrite (copy_wf cfg Hwf). }
    split; intros d Hd; unfold provided_driver, forRoot, forRootAsync in Hd;
      cbn [driver_factory provided_config] in Hd; unfold useFactory in Hd.
    + rewrite Hneo in Hd. rewrite (isNeo4jConfig_scheme cfg _ Hwf), Hneo in Hd.
      apply (createNeptuneDriver_options _ _ _ _ _ Hwf') in Hd.
      destruct Hd as (_ & _ & Hother).
      rewrite Hother by discriminate. cbn [existsb String.eqb Ascii.eqb Bool.eqb orb].
      apply field_with_field_same.
    + rewrite Hneo in Hd.
      apply (createNeptuneDriver_options _ _ _ _ _ Hwf) in Hd.
      destruct Hd as (_ & _ & Hother).
      now rewrite Hother by discriminate.
Qed.

Lemma forRoot_and_forRootAsync_witness :
  wf_config neo4j_config /\
  provided_driver (forRoot known_scheme reachable (signing "signature") neo4j_config) =
  provided_driver (forRootAsync known_scheme reachable (signing "signature") None neo4j_config).
Proof.
  assert (Hwf' : wf_config neo4j_config).
  { unfold wf_config. cbn. repeat constructor; cbn; intuition discriminate. }
  split; [exact Hwf' |].
  destruct (forRoot_and_forRootAsync known_scheme reachable (signing "signature") None neo4j_config Hwf')
    as [Hsame _].
  apply Hsame. reflexivity.
Defined.

Lemma truthy_setting_Some (x : option setting) :
  truthy_setting x = true -> exists v, x = Some v.
Proof. destruct x as [v |]; [now exists v | discriminate]. Qed.

(** X5. How the driver factory authenticates.  A configuration without a
    (truthy) user name is connected as a Neptune endpoint, with the signed
    header as its credentials, even when it holds a password.  One with a
    user name and a password is connected with exactly these two.  The
    driver is made without any authentication exactly when the
    configuration holds a user name and no password. *)
Theorem useFactory_authentication (construct verify : Driver -> result unit)
    (sign : option setting -> option setting -> option setting -> result string)
    (cfg : config) (d : Driver) :
  useFactory construct verify sign cfg = Ok d ->
  (truthy_setting (field cfg "username") = false ->
   exists signed,
     sign (field cfg "host") (field cfg "port") (field cfg "region") = Ok signed /\
     auth d = Some {| auth_scheme := "basic"; principal := Plain (str "username");
                      credentials := Plain (str signed); realm := Some "realm" |}) /\
  (truthy_setting (field cfg "username") = true ->
   truthy_setting (field cfg "password") = true ->
   exists u pw,
     field cfg "username" = Some u /\ field cfg "password" = Some pw /\
     auth d = Some (auth_basic u pw)) /\
  (auth d = None <->
   truthy_setting (field cfg "username") = true /\
   truthy_setting (field cfg "password") = false).
Proof.
  unfold useFactory, isNeo4jConfig. intros H.
  destruct (truthy_setting (field cfg "username")) eqn:Hu.
  - apply createDriver_Ok in H. destruct H as (_ & _ & Hauth).
    rewrite Hu in Hauth. cbn [negb orb] in Hauth.
    split; [discriminate |]. split.
    + intros _ Hp. rewrite Hp in Hauth. cbn [negb] in Hauth.
      destruct (truthy_setting_Some _ Hu) as [u Eu].
      destruct (truthy_setting_Some _ Hp) as [pw Ep].
      exists u, pw. rewrite Eu, Ep in Hauth. auto.
    + destruct (truthy_setting (field cfg "password")) eqn:Hp; cbn [negb] in Hauth.
      * destruct (truthy_setting_Some _ Hu) as [u Eu].
        destruct (truthy_setting_Some _ Hp) as [pw Ep].
        rewrite Eu, Ep in Hauth. rewrite Hauth.
        split; [discriminate | intros [_ Hf]; discriminate Hf].
      * rewrite Hauth. split; auto.
  - apply createNeptuneDriver_Ok in H. destruct H as [signed (Hs & _ & Hauth & _)].
    split; [intros _; exists signed; auto |].
    split; [discriminate |].
    rewrite Hauth. split; [discriminate | intros [Hf _]; discriminate Hf].
Qed.

Lemma useFactory_authentication_witness :
  (exists d,
      useFactory known_scheme reachable (signing "signature")
                 [("scheme", Plain (str "bolt")); ("host", Plain (str "db.local"));
                  ("port", Plain (num 7687)); ("username", Plain (str "neo4j"));
                  ("password", Plain (str ""))] = Ok d /\
      url d = "bolt://db.local:7687" /\
      auth d = None) /\
  useFactory known_scheme reachable (signing "signature")
             [("host", Plain (str "db.local")); ("port", Plain (num 7687));
              ("username", Plain (str "neo4j")); ("password", Plain (str ""))] =
    Throw (Error "Unknown scheme: undefined").
Proof.
  split; [| reflexivity].
  eexists. split; [reflexivity |]. split; [reflexivity |].
  match goal with
  | |- auth ?d = None =>
      destruct (useFactory_authentication known_scheme reachable (signing "signature")
                  [("scheme", Plain (str "bolt")); ("host", Plain (str "db.local"));
                   ("port", Plain (num 7687)); ("username", Plain (str "neo4j"));
                   ("password", Plain (str ""))]
                  d eq_refl) as (_ & _ & Hnone)
  end.
  apply Hnone. split; reflexivity.
Defined.

(* ===================================================================== *)
(** ** The operations from end to end *)
(* ===================================================================== *)

Lemma runWithDebug_run_throws {T : Type} (self : Neo4jModelService T) (c : string)
    (o : Options) (e : exn) :
  run (neo4jService self) c o = Throw e ->
  exists e', _runWithDebug self c o = Throw e' /\ (logger_returns self -> e' = e).
Proof.
  intros Hrun. unfold _runWithDebug.
  destruct (logger_debug self (LogStatement c o)) as [[] | e0] eqn:Hlog; cbn [bind].
  - rewrite Hrun. cbn [bind]. exists e. auto.
  - exists e0. split; [reflexivity |]. intros Hq. rewrite Hq in Hlog. discriminate.
Qed.

Ltac run_throws self H :=
  match goal with
  | |- exists e', bind (logger_debug self ?entry) _ = _ /\ _ =>
      let Hlog := fresh "Hlog" in
      let e0 := fresh "e0" in
      destruct (logger_debug self entry) as [[] | e0] eqn:Hlog; cbn [bind];
      [ cbv zeta;
        let e' := fresh "e'" in
        let Hr := fresh "Hr" in
        let He := fresh "He" in
        destruct (runWithDebug_run_throws self _ _ _ H) as [e' [Hr He]];
        rewrite Hr; cbn [bind]; exists e'; auto
      | exists e0; split; [reflexivity |];
        let Hq := fresh "Hq" in
        intros Hq; rewrite Hq in Hlog; discriminate ]
  end.

(** X6. A failure of the database is never swallowed and never turned
    into a result: when the run of its statement fails, every operation
    fails, and with the very exception of the database unless the logger
    threw first. *)
Theorem database_failure_propagates (T : Type) (self : Neo4jModelService T) (e : exn) :
  (forall props,
      run (neo4jService self) (cypher (createQuery self props))
          (options (createQuery self props)) = Throw e ->
      exists e', create self props = Throw e' /\ (logger_returns self -> e' = e)) /\
  (forall props,
      run (neo4jService self) (cypher (mergeQuery self props))
          (options (mergeQuery self props)) = Throw e ->
      exists e', merge self props = Throw e' /\ (logger_returns self -> e' = e)) /\
  (forall props,
      run (neo4jService self) (cypher (deleteQuery self props))
          (options (deleteQuery self props)) = Throw e ->
      exists e', delete self props = Throw e' /\ (logger_returns self -> e' = e)) /\
  (forall pp,
      run (neo4jService self) (cypher (findAllQuery self pp))
          (options (findAllQuery self pp)) = Throw e ->
      exists e', findAll self pp = Throw e' /\ (logger_returns self -> e' = e)) /\
  (forall fp,
      run (neo4jService self) (cypher (findByQuery self fp))
          (options (findByQuery self fp)) = Throw e ->
      exists e', findBy self fp = Throw e' /\ (logger_returns self -> e' = e)) /\
  (forall sp,
      run (neo4jService self) (cypher (searchByQuery self sp))
          (options (searchByQuery self sp)) = Throw e ->
      exists e', searchBy self sp = Throw e' /\ (logger_returns self -> e' = e)).
Proof.
  repeat split; intros x H.
  - unfold create. run_throws self H.
  - unfold merge. run_throws self H.
  - unfold delete. run_throws self H.
  - unfold findAll. run_throws self H.
  - unfold findBy. run_throws self H.
  - unfold searchBy. run_throws self H.
Qed.

Lemma database_failure_propagates_witness :
  create (person_service {| run := fun _ _ => Throw (Error "connection lost") |}
                         (Some quiet_logger)) ada_bag =
  Throw (Error "connection lost").
Proof.
  destruct (database_failure_propagates bag
              (person_service {| run := fun _ _ => Throw (Error "connection lost") |}
                              (Some quiet_logger))
              (Error "connection lost")) as (Hcreate & _).
  destruct (Hcreate ada_bag eq_refl) as [e' [Hthrow He]].
  rewrite Hthrow. f_equal. apply He. intros entry. reflexivity.
Defined.

Lemma define_keys (o : bag) (k : string) (v : value) :
  In k (Object_keys o) -> Object_keys (define o k v) = Object_keys o.
Proof.
  induction o as [| [k' v'] o IH]; cbn; intros Hin.
  - contradiction.
  - destruct (String.eqb_spec k' k) as [-> | Hne]; cbn.
    + reflexivity.
    + f_equal. apply IH. destruct Hin as [Heq | Hin]; [contradiction | exact Hin].
Qed.

Lemma define_wf (o : bag) (k : string) (v : value) : wf_bag o -> wf_bag (define o k v).
Proof.
  intros Hwf. unfold wf_bag.
  destruct (in_dec string_dec k (Object_keys o)) as [Hin | Hnotin].
  - now rewrite define_keys.
  - rewrite define_fresh by exact Hnotin.
    rewrite Object_keys_app. cbn [Object_keys map fst].
    apply (Permutation_NoDup (l := k :: Object_keys o)).
    + apply Permutation_cons_append.
    + now constructor.
Qed.

Lemma stamp_wf (ts : string) (now : Z) (o : bag) : wf_bag o -> wf_bag (stamp ts now o).
Proof.
  intros Hwf. unfold stamp. destruct (truthy ts); [now apply define_wf | exact Hwf].
Qed.

Lemma pattern_match_get (pattern : bag) (n : node) (k : string) (v : value) :
  pattern_match pattern n = true -> In (k, v) pattern -> get (node_props n) k = Some v.
Proof.
  unfold pattern_match. intros Hm Hin.
  rewrite forallb_forall in Hm. specialize (Hm _ Hin). cbn [fst snd] in Hm.
  destruct (get (node_props n) k) as [w |]; [| discriminate].
  apply value_eqb_eq in Hm. now subst.
Qed.

Lemma runWithDebug_answer {T : Type} (self : Neo4jModelService T) (c : string) (o : Options)
    (answer : QueryResult) :
  logger_returns self ->
  run (neo4jService self) c o = Ok answer ->
  _runWithDebug self c o = Ok (map toObject (records answer)).
Proof.
  intros Hq Hrun. rewrite (runWithDebug_quiet self c o Hq), Hrun. reflexivity.
Qed.

Lemma props_column_here (name : string) (b : bag) : props_column [(name, CProps b)] name = b.
Proof. unfold props_column. cbn [row_get]. now rewrite String.eqb_refl. Qed.

(** X7. From end to end, with the hooks of the base class: when the
    database runs the statement of [create] and answers with the node it
    made, [create] returns the caller's bag with the timestamp property
    set to the server time (and the bag itself when no timestamp is
    configured); every other property comes back as it was passed. *)
Theorem create_returns_stored_properties (lbl ts : string) (db : Neo4jService)
    (lg : option Logger) (props : bag) (now : Z) (g g' : graph) (ns : list node) :
  wf_bag props ->
  logger_returns (base_service lbl ts db lg) ->
  run_createQuery (base_service lbl ts db lg) props now g = Some (g', ns) ->
  run db (cypher (createQuery (base_service lbl ts db lg) props))
         (options (createQuery (base_service lbl ts db lg) props)) =
    Ok (graph_result "created" ns) ->
  exists created,
    create (base_service lbl ts db lg) props = Ok (Some created) /\
    created = stamp ts now props /\
    (ts <> "" -> get created ts = Some (num now)) /\
    (ts = "" -> created = props) /\
    (forall k, k <> ts -> get created k = get props k).
Proof.
  intros Hwf Hq Hsem Hrun.
  unfold run_createQuery, db_create in Hsem. rewrite createQuery_bound_props in Hsem.
  cbn [toNeo4j base_service] in Hsem. unfold default_toNeo4j in Hsem.
  rewrite (spread_wf props Hwf) in Hsem. inversion Hsem; subst g' ns. clear Hsem.
  exists (stamp ts now props). split; [| split; [reflexivity | split; [| split]]].
  - unfold create. rewrite Hq. cbn [bind]. cbv zeta.
    rewrite (runWithDebug_answer _ _ _ _ Hq Hrun).
    cbn [bind graph_result records map toObject node_props fromNeo4j base_service
         timestamp].
    rewrite props_column_here. unfold default_fromNeo4j.
    now rewrite (spread_wf _ (stamp_wf ts now props Hwf)).
  - intros Hts. unfold stamp. rewrite (truthy_true ts Hts). apply get_define_same.
  - intros ->. reflexivity.
  - intros k Hk. unfold stamp. destruct (truthy ts); [| reflexivity].
    apply get_define_other. congruence.
Qed.

Lemma create_returns_stored_properties_witness :
  create (person_service
            (answering [[("created", CProps (ada_bag ++ [("createdAt", num 1700)])%list)]])
            None) ada_bag =
  Ok (Some (ada_bag ++ [("createdAt", num 1700)])%list).
Proof.
  assert (Hwf : wf_bag ada_bag).
  { unfold wf_bag. cbn. repeat constructor; cbn; intuition discriminate. }
  destruct (create_returns_stored_properties "Person" "createdAt"
              (answering [[("created", CProps (ada_bag ++ [("createdAt", num 1700)])%list)]])
              None ada_bag 1700 [] _ _ Hwf (fun _ => eq_refl) eq_refl eq_refl)
    as [created [Hcreate [Hstamp _]]].
  rewrite Hstamp in Hcreate. exact Hcreate.
Defined.

(** X8. From end to end, with the hooks of the base class and a bag that
    does not hold the timestamp property: when the database runs the
    statement of [merge] and answers with the nodes it bound, [merge]
    returns an object (never nothing), and that object holds every
    property of the caller's bag with the caller's value, whether the
    node was found or made. *)
Theorem merge_returns_the_bag (lbl ts : string) (db : Neo4jService)
    (lg : option Logger) (props : bag) (now : Z) (g g' : graph) (ns : list node) :
  wf_bag props -> wf_graph g ->
  (truthy ts = true -> ~ In ts (Object_keys props)) ->
  logger_returns (base_service lbl ts db lg) ->
  run_mergeQuery (base_service lbl ts db lg) props now g = Some (g', ns) ->
  run db (cypher (mergeQuery (base_service lbl ts db lg) props))
         (options (mergeQuery (base_service lbl ts db lg) props)) =
    Ok (graph_result "merged" ns) ->
  exists merged,
    merge (base_service lbl ts db lg) props = Ok (Some merged) /\
    forall k v, In (k, v) props -> get merged k = Some v.
Proof.
  intros Hwf Hg Hts Hq Hsem Hrun.
  assert (Hfit : forall n, In n ns -> pattern_match props n = true /\ wf_bag (node_props n)).
  { intros n Hn. split.
    - assert (Hp : merge_pattern (Object_keys props)
                     (toNeo4j (base_service lbl ts db lg) props) = Some props).
      { cbn [toNeo4j base_service]. unfold default_toNeo4j.
        rewrite (spread_wf props Hwf). now apply merge_pattern_whole_bag. }
      apply (db_merge_fits _ _ _ _ _ _ _ _ _ _
               (mergeQuery_bound_props (base_service lbl ts db lg) props) Hp Hwf Hts Hsem n Hn).
    - destruct (run_mergeQuery_cases _ _ _ _ _ _ Hsem)
        as [pattern [Hp [[_ [_ Hns]] | [_ [m [_ [Hns [_ Hprops]]]]]]]].
      + subst ns. apply filter_In in Hn. destruct Hn as [Hn _]. now apply Hg.
      + subst ns. destruct Hn as [<- | []]. rewrite Hprops. apply stamp_wf.
        assert (Hwfp : wf_bag pattern).
        { unfold wf_bag. now rewrite (merge_pattern_keys _ _ _ Hp). }
        now rewrite (spread_wf pattern Hwfp). }
  assert (Hne : ns <> []).
  { destruct (run_mergeQuery_cases _ _ _ _ _ _ Hsem)
      as [pattern [_ [[Hne [_ Hns]] | [_ [m [_ [Hns _]]]]]]]; subst ns;
      [exact Hne | discriminate]. }
  destruct ns as [| n ns']; [contradiction |].
  destruct (Hfit n (or_introl eq_refl)) as [Hm Hwfn].
  exists (node_props n). split.
  - unfold merge. rewrite Hq. cbn [bind]. cbv zeta.
    rewrite (runWithDebug_answer _ _ _ _ Hq Hrun).
    cbn [bind graph_result records map toObject fromNeo4j base_service].
    rewrite props_column_here. unfold default_fromNeo4j. now rewrite (spread_wf _ Hwfn).
  - intros k v Hin. now apply (pattern_match_get props n).
Qed.

Lemma merge_returns_the_bag_witness :
  wf_bag [("name", str "Ada")] /\ wf_graph [ada] /\
  exists merged,
    merge (base_service "Person" "" (answering [[("merged", CProps ada_bag)]]) None)
          [("name", str "Ada")] = Ok (Some merged) /\
    get merged "name" = Some (str "Ada").
Proof.
  assert (Hwf : wf_bag [("name", str "Ada")]).
  { unfold wf_bag. cbn. repeat constructor; cbn; intuition discriminate. }
  assert (Hg : wf_graph [ada]).
  { intros n [<- | []]. unfold wf_bag. cbn.
    repeat constructor; cbn; intuition discriminate. }
  split; [exact Hwf |]. split; [exact Hg |].
  destruct (merge_returns_the_bag "Person" "" (answering [[("merged", CProps ada_bag)]])
              None [("name", str "Ada")] 20 [ada] [ada] [ada] Hwf Hg
              (fun H => False_ind _ (Bool.diff_false_true H))
              (fun _ => eq_refl) eq_refl eq_refl)
    as [merged [Hmerge Hholds]].
  exists merged. split; [exact Hmerge |]. apply Hholds. now left.
Defined.

(* ===================================================================== *)
(** ** Ordering options *)
(* ===================================================================== *)

(** X9. [descending] has an effect only together with a non-empty
    [orderBy]: without one (absent, or the empty string) [findAll] and
    [findBy] build the statement they build for no ordering at all,
    whatever [descending] says; a call of [findAll] with no parameter
    object builds the statement of a call with an empty one; and
    [descending: false] is the same as leaving it out. *)
Theorem ordering_options (T : Type) (self : Neo4jModelService T) :
  findAllQuery self None =
    findAllQuery self (Some {| page := {| skip := None; limit := None |};
                               orderBy := None; descending := None |}) /\
  (forall sl ob desc props,
      ob = None \/ ob = Some "" ->
      findAllQuery self (Some {| page := sl; orderBy := ob; descending := desc |}) =
        findAllQuery self (Some {| page := sl; orderBy := None; descending := None |}) /\
      findByQuery self (find props {| page := sl; orderBy := ob; descending := desc |}) =
        findByQuery self (find props {| page := sl; orderBy := None; descending := None |})) /\
  (forall sl ob props,
      findAllQuery self (Some {| page := sl; orderBy := ob; descending := Some false |}) =
        findAllQuery self (Some {| page := sl; orderBy := ob; descending := None |}) /\
      findByQuery self (find props {| page := sl; orderBy := ob; descending := Some false |}) =
        findByQuery self (find props {| page := sl; orderBy := ob; descending := None |})) /\
  (forall sl o desc,
      o <> "" ->
      cypher (findAllQuery self (Some {| page := sl; orderBy := Some o; descending := desc |})) =
        "MATCH (n:`" ++ label self ++ "`) RETURN properties(n) AS matched" ++
        (" ORDER BY n.`" ++ o ++ "`" ++ match desc with Some true => " DESC" | _ => "" end) ++
        " SKIP $skip LIMIT $limit").
Proof.
  split; [reflexivity |]. split; [| split].
  - intros sl ob desc props [-> | ->]; split; reflexivity.
  - intros sl ob props. unfold findAllQuery, findByQuery, order_clause. cbn.
    destruct ob as [o |]; [destruct (truthy o) |]; split; reflexivity.
  - intros sl o desc Ho. unfold findAllQuery, order_clause. cbn [cypher orderBy descending].
    now rewrite (truthy_true o Ho).
Qed.

Lemma ordering_options_witness :
  cypher (findAllQuery (person_service (answering []) None)
            (Some {| page := {| skip := None; limit := None |};
                     orderBy := Some "name"; descending := Some true |})) =
  "MATCH (n:`Person`) RETURN properties(n) AS matched ORDER BY n.`name` DESC SKIP $skip LIMIT $limit".
Proof.
  destruct (ordering_options bag (person_service (answering []) None)) as (_ & _ & _ & H).
  apply (H {| skip := None; limit := None |} "name" (Some true)). discriminate.
Defined.

(* ===================================================================== *)
(** ** Words, substrings and the score *)
(* ===================================================================== *)

Lemma prefix_spec (t w : string) :
  String.prefix t w = true <-> exists post, w = t ++ post.
Proof.
  revert w. induction t as [| c t IH]; intros w.
  - split; [intros _; now exists w | intros _; now destruct w].
  - destruct w as [| d w]; cbn.
    + split; [discriminate | intros [post H]; discriminate H].
    + destruct (ascii_dec c d) as [-> | Hne].
      * rewrite IH. split; intros [post H]; exists post.
        -- now rewrite H.
        -- now inversion H.
      * split; [discriminate |]. intros [post H]. injection H as Hd _. congruence.
Qed.

Lemma contains_unfold (w t : string) :
  contains w t =
  String.prefix t w || match w with
                       | EmptyString => false
                       | String _ w' => contains w' t
                       end.
Proof. destruct w; reflexivity. Qed.

(** [contains] is the substring test. *)
Lemma contains_spec (w t : string) :
  contains w t = true <-> exists pre post, w = pre ++ t ++ post.
Proof.
  split.
  - induction w as [| c w IH]; rewrite contains_unfold; intros H;
      apply orb_true_iff in H; destruct H as [H | H].
    + apply prefix_spec in H. destruct H as [post H]. now exists "", post.
    + discriminate.
    + apply prefix_spec in H. destruct H as [post H]. now exists "", post.
    + destruct (IH H) as [pre [post E]]. exists (String c pre), post. cbn. now rewrite E.
  - intros [pre [post E]]. revert w E. induction pre as [| c pre IH]; intros w E.
    + rewrite contains_unfold. apply orb_true_iff. left. apply prefix_spec.
      now exists post.
    + cbn in E. subst w. rewrite contains_unfold. apply orb_true_iff. right.
      now apply IH.
Qed.

Lemma contains_refl (w : string) : contains w w = true.
Proof.
  apply contains_spec. exists "", "". cbn.
  induction w as [| c w IH]; cbn; [reflexivity | now rewrite <- IH].
Qed.

(** X10. The candidate filter of the search keeps a node exactly when one
    of the terms occurs, as it is written, inside one of the words: the
    word is some text, the term, some text. *)
Theorem candidate_iff_substring (terms words : list string) :
  candidate terms words = true <->
  exists term word pre post,
    In term terms /\ In word words /\ word = pre ++ term ++ post.
Proof.
  unfold candidate. rewrite existsb_exists. split.
  - intros [term [Ht H]]. apply existsb_exists in H. destruct H as [word [Hw H]].
    apply contains_spec in H. destruct H as [pre [post E]].
    now exists term, word, pre, post.
  - intros [term [word [pre [post [Ht [Hw E]]]]]]. exists term. split; [exact Ht |].
    apply existsb_exists. exists word. split; [exact Hw |].
    apply contains_spec. now exists pre, post.
Qed.

Lemma word_points_range (t w : string) : 0 <= word_points t w <= 4.
Proof. unfold word_points. destruct (w =? t)%string; [lia |]. destruct (contains w t); lia. Qed.

Lemma word_points_contains (t w : string) :
  (contains w t = true -> 2 <= word_points t w) /\
  (contains w t = false -> word_points t w = 0).
Proof.
  unfold word_points. destruct (String.eqb_spec w t) as [-> | Hne].
  - rewrite contains_refl. split; [lia | discriminate].
  - destruct (contains w t); split; (lia || discriminate || reflexivity).
Qed.

Lemma sumZ_range (A : Type) (f : A -> Z) (hi : Z) (l : list A) :
  (forall x, 0 <= f x <= hi) -> 0 <= sumZ (map f l) <= hi * Z.of_nat (length l).
Proof.
  intros Hf. induction l as [| x l IH]; cbn [map length].
  - cbn. lia.
  - change (sumZ (f x :: map f l)) with (f x + sumZ (map f l)).
    specialize (Hf x). lia.
Qed.

Lemma sumZ_In (A : Type) (f : A -> Z) (l : list A) (x : A) :
  (forall y, 0 <= f y) -> In x l -> f x <= sumZ (map f l).
Proof.
  intros Hf. induction l as [| y l IH]; intros Hin; [contradiction |].
  change (sumZ (map f (y :: l))) with (f y + sumZ (map f l)).
  assert (0 <= sumZ (map f l)).
  { clear IH Hin. induction l as [| z l IH]; cbn; [lia |].
    fold (sumZ (map f l)). specialize (Hf z). lia. }
  destruct Hin as [-> | Hin]; [lia |]. specialize (IH Hin). specialize (Hf y). lia.
Qed.

Lemma sumZ_zero (A : Type) (f : A -> Z) (l : list A) :
  (forall x, In x l -> f x = 0) -> sumZ (map f l) = 0.
Proof.
  induction l as [| y l IH]; intros H; [reflexivity |].
  change (sumZ (map f (y :: l))) with (f y + sumZ (map f l)).
  rewrite (H y) by now left. rewrite IH; [reflexivity |].
  intros x Hx. apply H. now right.
Qed.

(** X11. The candidate filter and the score agree: a node that passes
    the filter scores at least 2, never 0; and a node the filter drops
    would have scored 0 (unless its words and the terms concatenate to
    the same text). *)
Theorem candidate_and_score (terms words : list string) :
  (candidate terms words = true -> 2 <= score terms words) /\
  (candidate terms words = false ->
   text_join terms <> text_join words -> score terms words = 0).
Proof.
  rewrite score_spec. unfold spec_score. split.
  - intros Hc. destruct (text_join terms =? text_join words)%string; [lia |].
    unfold candidate in Hc. apply existsb_exists in Hc. destruct Hc as [term [Ht Hc]].
    apply existsb_exists in Hc. destruct Hc as [word [Hw Hc]].
    apply word_points_contains in Hc.
    pose proof (sumZ_In _ (word_points term) words word
                  (fun y => proj1 (word_points_range term y)) Hw) as H1.
    pose proof (sumZ_In _ (fun t => sumZ (map (word_points t) words)) terms term) as H2.
    cbv beta in H2. specialize (H2 (fun t => proj1 (sumZ_range _ (word_points t) 4 words
                                                     (word_points_range t))) Ht).
    lia.
  - intros Hc Hne. destruct (String.eqb_spec (text_join terms) (text_join words));
      [contradiction |].
    apply sumZ_zero. intros term Ht. apply sumZ_zero. intros word Hw.
    apply word_points_contains.
    unfold candidate in Hc.
    destruct (contains word term) eqn:E; [| reflexivity].
    assert (existsb (fun term => existsb (fun word => contains word term) words) terms = true).
    { apply existsb_exists. exists term. split; [exact Ht |].
      apply existsb_exists. now exists word. }
    congruence.
Qed.

Lemma candidate_and_score_witness :
  2 <= score ["lu"] (split " " "red blue") /\
  score ["green"] (split " " "red blue") = 0.
Proof.
  split.
  - apply (proj1 (candidate_and_score ["lu"] (split " " "red blue"))). reflexivity.
  - apply (proj2 (candidate_and_score ["green"] (split " " "red blue")));
      [reflexivity | discriminate].
Defined.

(** X12. A score is never negative, and never above the larger of 100
    and four points for every pair of a term and a word. *)
Theorem score_bounds (terms words : list string) :
  0 <= score terms words <=
  Z.max 100 (4 * Z.of_nat (length terms) * Z.of_nat (length words)).
Proof.
  rewrite score_spec. unfold spec_score.
  destruct (text_join terms =? text_join words)%string; [lia |].
  pose proof (sumZ_range _ (fun t => sumZ (map (word_points t) words))
                (4 * Z.of_nat (length words)) terms) as H.
  cbv beta in H.
  assert (Hin : forall t, 0 <= sumZ (map (word_points t) words) <= 4 * Z.of_nat (length words)).
  { intros t. apply sumZ_range. apply word_points_range. }
  specialize (H Hin). lia.
Qed.

Lemma sumZ_Permutation (l l' : list Z) : Permutation l l' -> sumZ l = sumZ l'.
Proof.
  induction 1 as [| x l l' _ IH | x y l | l l' l'' _ IH1 _ IH2]; cbn.
  - reflexivity.
  - fold (sumZ l) (sumZ l'). lia.
  - fold (sumZ l). lia.
  - congruence.
Qed.

(** X13. Apart from the bonus of 100, the score does not depend on the
    order of the terms or on the order of the words: rearranging either
    list leaves the score as it is, as long as neither arrangement makes
    the terms and the words concatenate to the same text. *)
Theorem score_order_independent (terms terms' words words' : list string) :
  Permutation terms terms' -> Permutation words words' ->
  text_join terms <> text_join words ->
  text_join terms' <> text_join words' ->
  score terms words = score terms' words'.
Proof.
  intros Pt Pw Hne Hne'. rewrite !score_spec. unfold spec_score.
  destruct (String.eqb_spec (text_join terms) (text_join words)); [contradiction |].
  destruct (String.eqb_spec (text_join terms') (text_join words')); [contradiction |].
  transitivity (sumZ (map (fun t => sumZ (map (word_points t) words')) terms)).
  - f_equal. apply map_ext. intros t. apply sumZ_Permutation. now apply Permutation_map.
  - apply sumZ_Permutation. now apply Permutation_map.
Qed.

Lemma score_order_independent_witness :
  score ["red"; "blue"] (split " " "red blue red") =
  score ["blue"; "red"] (split " " "red red blue").
Proof.
  apply score_order_independent.
  - apply perm_swap.
  - cbn. apply perm_skip. apply perm_swap.
  - discriminate.
  - discriminate.
Defined.

Lemma split_nonempty (sep : ascii) (s : string) : split sep s <> [].
Proof.
  destruct s as [| c s]; cbn; [discriminate |].
  destruct (Ascii.eqb c sep); [discriminate |].
  destruct (split sep s); discriminate.
Qed.

Lemma concat_cons_char (sep : string) (c : ascii) (w : string) (ws : list string) :
  String.concat sep (String c w :: ws) = String c (String.concat sep (w :: ws)).
Proof. destruct ws; reflexivity. Qed.

(** X14. The words of a property value lose nothing of it: joined again
    with single spaces they give the value back; there is always at least
    one word (the empty one, for an empty value); and no word holds a
    space. *)
Theorem split_round_trip (s : string) :
  String.concat " " (split " " s) = s /\
  split " " s <> [] /\
  forall w, In w (split " " s) -> contains w " " = false.
Proof.
  split; [| split; [apply split_nonempty |]].
  - induction s as [| c s IH]; [reflexivity |].
    cbn [split]. destruct (Ascii.eqb_spec c " ") as [-> | Hne].
    + pose proof (split_nonempty " " s) as Hnil.
      destruct (split " " s) as [| w ws] eqn:E; [contradiction |].
      cbn [String.concat]. cbn [String.concat] in IH. now rewrite IH.
    + pose proof (split_nonempty " " s) as Hnil.
      destruct (split " " s) as [| w ws] eqn:E; [contradiction |].
      rewrite concat_cons_char. now rewrite IH.
  - induction s as [| c s IH]; cbn [split].
    + intros w [<- | []]. reflexivity.
    + destruct (Ascii.eqb_spec c " ") as [-> | Hne].
      * intros w [<- | Hw]; [reflexivity | now apply IH].
      * pose proof (split_nonempty " " s) as Hnil.
        destruct (split " " s) as [| w0 ws] eqn:E; [contradiction |].
        intros w [<- | Hw].
        -- rewrite contains_unfold. cbn [String.prefix].
           destruct (ascii_dec " " c) as [Heq | _]; [congruence |].
           cbn [orb]. apply IH. now left.
        -- apply IH. now right.
Qed.

(* ===================================================================== *)
(** ** The rows of a search *)
(* ===================================================================== *)

Lemma insert_by_score_Forall (P : node * Z -> Prop) (x : node * Z) (l : list (node * Z)) :
  P x -> Forall P l -> Forall P (insert_by_score x l).
Proof.
  intros Hx Hl. induction Hl as [| y l Hy Hl IH]; cbn.
  - now constructor.
  - destruct (snd y <=? snd x)%Z; repeat constructor; auto.
Qed.

Lemma insert_by_score_sorted (x : node * Z) (l : list (node * Z)) :
  StronglySorted score_ge l -> StronglySorted score_ge (insert_by_score x l).
Proof.
  induction 1 as [| y l Hs IH Hy]; cbn.
  - repeat constructor.
  - destruct (Z.leb_spec (snd y) (snd x)) as [Hle | Hgt].
    + constructor; [now constructor |].
      constructor; [exact Hle |].
      eapply Forall_impl; [| exact Hy]. unfold score_ge. intros z Hz. lia.
    + constructor; [exact IH |].
      apply insert_by_score_Forall; [unfold score_ge; lia | exact Hy].
Qed.

Lemma order_by_score_desc_sorted (l : list (node * Z)) :
  StronglySorted score_ge (order_by_score_desc l).
Proof.
  induction l as [| x l IH]; cbn; [constructor | now apply insert_by_score_sorted].
Qed.

Lemma StronglySorted_skipn {A : Type} (R : A -> A -> Prop) (n : nat) (l : list A) :
  StronglySorted R l -> StronglySorted R (skipn n l).
Proof.
  revert l. induction n as [| n IH]; intros l Hs; [exact Hs |].
  destruct l as [| x l]; [exact Hs |]. cbn. apply IH. now inversion Hs.
Qed.

Lemma StronglySorted_firstn {A : Type} (R : A -> A -> Prop) (n : nat) (l : list A) :
  StronglySorted R l -> StronglySorted R (firstn n l).
Proof.
  revert l. induction n as [| n IH]; intros l Hs; [constructor |].
  destruct l as [| x l]; [constructor |]. cbn.
  inversion Hs as [| ? ? Hl Hx]; subst. constructor; [now apply IH |].
  apply Forall_forall. intros y Hy. apply In_firstn in Hy.
  rewrite Forall_forall in Hx. now apply Hx.
Qed.

(** X15. The rows of a search come best first: no row scores more than a
    row before it; there are at most [limit] of them; and each is a node
    of the searched label. *)
Theorem search_rows_best_first (lbl p : string) (ps : list (string * param)) (g : graph)
    (rows : list row) :
  db_search lbl p ps g = Some rows ->
  exists (scoredrows : list (node * Z)) (lim : Z),
    rows = map search_row scoredrows /\
    StronglySorted score_ge scoredrows /\
    bound_int ps "limit" = Some lim /\
    Z.of_nat (length rows) <= lim /\
    forall x, In x scoredrows -> In (fst x) g /\ has_label lbl (fst x) = true.
Proof.
  unfold db_search. intros H.
  destruct (bound_terms ps) as [ts |]; [| discriminate].
  destruct (bound_int ps "skip") as [sk |]; [| discriminate].
  destruct (bound_int ps "limit") as [lim |]; [| discriminate].
  destruct (scored p ts (filter (has_label lbl) g)) as [all |] eqn:Hs; [| discriminate].
  unfold skip_limit in H.
  destruct (Z.ltb_spec sk 0) as [| Hsk]; [discriminate |].
  destruct (Z.ltb_spec lim 0) as [| Hlim]; [discriminate |].
  cbn in H. inversion H; subst rows. clear H.
  exists (firstn (Z.to_nat lim) (skipn (Z.to_nat sk) (order_by_score_desc all))), lim.
  split; [reflexivity |]. split; [| split; [reflexivity | split]].
  - apply StronglySorted_firstn, StronglySorted_skipn, order_by_score_desc_sorted.
  - rewrite length_map.
    pose proof (firstn_le_length (Z.to_nat lim)
                  (skipn (Z.to_nat sk) (order_by_score_desc all))) as Hlen.
    lia.
  - intros x Hx. apply In_firstn in Hx. apply In_skipn in Hx.
    apply order_by_score_desc_In in Hx.
    destruct (scored_In _ _ _ _ _ Hs Hx) as [Hin _].
    apply filter_In in Hin. exact Hin.
Qed.

Lemma search_rows_best_first_witness :
  exists scoredrows lim,
    [search_row (person 2 "blue", 100); search_row (person 1 "red blue red", 4)] =
      map search_row scoredrows /\
    StronglySorted score_ge scoredrows /\
    bound_int
      (params (options (searchByQuery (person_service (answering []) None)
                                      (search_names ["blue"])))) "limit" = Some lim /\
    Z.of_nat (length [search_row (person 2 "blue", 100);
                      search_row (person 1 "red blue red", 4)]) <= lim /\
    forall x, In x scoredrows ->
              In (fst x) [person 1 "red blue red"; person 2 "blue"] /\
              has_label "Person" (fst x) = true.
Proof.
  apply (search_rows_best_first "Person" "name"
           (params (options (searchByQuery (person_service (answering []) None)
                                           (search_names ["blue"]))))
           [person 1 "red blue red"; person 2 "blue"]).
  reflexivity.
Defined.

Lemma toInt_neo4j_int (s : Z) : int32_range s -> Integer_toInt (neo4j_int s) = s.
Proof.
  unfold int32_range. intros Hs. unfold neo4j_int.
  destruct (Z.leb_spec s (- 2 ^ 63)); [lia |].
  destruct (Z.leb_spec (2 ^ 63) (s + 1)); [lia |].
  unfold Integer_toInt, Integer_fromBits, to_int32. cbn [low].
  rewrite Zplus_mod_idemp_l.
  rewrite Z.mod_small by lia. lia.
Qed.

(** X16. When the database answers the search statement with scored
    rows, [searchBy] returns, in the order of the rows, each node's
    properties passed through [fromNeo4j] together with its score, the
    very number the database computed (for scores that fit 32 bits); no
    row is dropped and none makes the call throw. *)
Theorem searchBy_returns_scores (T : Type) (self : Neo4jModelService T) (sp : SearchParams)
    (scoredrows : list (node * Z)) :
  logger_returns self ->
  (forall x, In x scoredrows -> int32_range (snd x)) ->
  run (neo4jService self) (cypher (searchByQuery self sp)) (options (searchByQuery self sp)) =
    Ok (search_result (map search_row scoredrows)) ->
  searchBy self sp =
    Ok (map (fun x => (fromNeo4j self (node_props (fst x)), snd x)) scoredrows).
Proof.
  intros Hq Hrange Hrun. unfold searchBy. rewrite Hq. cbn [bind]. cbv zeta.
  rewrite (runWithDebug_answer _ _ _ _ Hq Hrun). cbn [bind].
  unfold search_result. cbn [records]. rewrite map_map. cbn [toObject]. rewrite map_id.
  clear Hrun. induction scoredrows as [| [n s] l IH]; [reflexivity |].
  cbn [map map_result]. rewrite IH by (intros x Hx; apply Hrange; now right).
  unfold score_column, search_row. cbn [row_get fst snd].
  cbn. rewrite toInt_neo4j_int by (apply (Hrange (n, s)); now left).
  reflexivity.
Qed.

Lemma searchBy_returns_scores_witness :
  searchBy (person_service
              (answering [search_row (person 2 "blue", 100);
                          search_row (person 1 "red blue red", 4)]) None)
           (search_names ["blue"]) =
  Ok [([("name", str "blue")], 100); ([("name", str "red blue red")], 4)].
Proof.
  apply (searchBy_returns_scores bag
           (person_service
              (answering [search_row (person 2 "blue", 100);
                          search_row (person 1 "red blue red", 4)]) None)
           (search_names ["blue"])
           [(person 2 "blue", 100); (person 1 "red blue red", 4)]).
  - intros entry. reflexivity.
  - intros x [<- | [<- | []]]; unfold int32_range; cbn; lia.
  - reflexivity.
Defined.

(* ===================================================================== *)
(** ** Property names in the statement text *)
(* ===================================================================== *)

(** X17. Property names are written between backticks as they are: a
    backtick inside a name is not escaped.  A bag with the one property
    whose name is [k1], a backtick, a colon, a literal, a comma, a
    backtick and [k2] gives the [delete] statement of the bag with the
    two properties [k1] and [k2]: the text of a statement does not tell
    which names the caller passed. *)
Theorem property_names_not_escaped (T : Type) (self : Neo4jModelService T)
    (k1 k2 : string) (v1 v2 : value) :
  k1 <> k2 ->
  cypher (deleteQuery self [(k1 ++ "`:" ++ JSON_stringify v1 ++ ",`" ++ k2, v2)]) =
  cypher (deleteQuery self [(k1, v1); (k2, v2)]).
Proof.
  intros Hne. unfold deleteQuery. cbn [cypher Object_keys map fst].
  unfold literal_entry. cbn [get].
  rewrite !String.eqb_refl.
  destruct (String.eqb_spec k1 k2) as [| _]; [contradiction |].
  unfold join_comma. cbn [String.concat].
  rewrite ?append_assoc. cbn [append]. rewrite ?append_assoc. reflexivity.
Qed.

Lemma property_names_not_escaped_witness :
  cypher (deleteQuery (person_service (answering []) None)
            [("name`:1,`city", str "Paris")]) =
  cypher (deleteQuery (person_service (answering []) None)
            [("name", num 1); ("city", str "Paris")]).
Proof.
  apply (property_names_not_escaped bag (person_service (answering []) None)
           "name" "city" (num 1) (str "Paris")).
  discriminate.
Defined.

(* ===================================================================== *)
(** ** Bounds the database accepts *)
(* ===================================================================== *)

(** The bound the normalizer yields for an optional number and its
    default. *)
Lemma normalized_value (x : option number) (d : Z) :
  Integer_value (Integer_fromNumber (number_or_default x d)) =
  match x with
  | Some (Finite q) =>
      if (Qnum q =? 0)%Z then Z.max (- 2 ^ 63) (Z.min (2 ^ 63 - 1) d)
      else Z.max (- 2 ^ 63) (Z.min (2 ^ 63 - 1) (truncate q))
  | Some (Infinity _) => 0
  | Some NaN => Z.max (- 2 ^ 63) (Z.min (2 ^ 63 - 1) d)
  | None => Z.max (- 2 ^ 63) (Z.min (2 ^ 63 - 1) d)
  end.
Proof.
  destruct x as [[q | | negative] |]; cbn [number_or_default falsy].
  - destruct (Qnum q =? 0)%Z; cbn [Integer_fromNumber];
      now rewrite neo4j_int_value, ?truncate_integer.
  - cbn [Integer_fromNumber]. now rewrite neo4j_int_value, truncate_integer.
  - reflexivity.
  - cbn [Integer_fromNumber]. now rewrite neo4j_int_value, truncate_integer.
Qed.

Lemma truncate_nonneg (q : Q) : (0 <= q)%Q -> 0 <= truncate q.
Proof.
  intros Hq. unfold Qle in Hq. cbn in Hq. unfold truncate.
  apply Z.quot_pos; lia.
Qed.

Lemma truncate_positive (q : Q) : (1 <= q)%Q -> 1 <= truncate q.
Proof.
  intros Hq. unfold Qle in Hq. cbn in Hq. unfold truncate.
  apply Z.quot_le_lower_bound; lia.
Qed.

(** A number has the integer part 0 when it lies strictly between -1 and
    1, and only then. *)
Lemma truncate_zero (q : Q) : truncate q = 0 <-> (- 1 < q)%Q /\ (q < 1)%Q.
Proof.
  unfold truncate, Qlt. cbn.
  rewrite Z.quot_small_iff by lia. lia.
Qed.

(** X18. The bounds the normalizer yields for numbers that are not
    negative.  A skip that is absent, not negative, NaN or an infinity
    comes out not negative, and so does a limit; a limit that is absent,
    zero, NaN or at least 1 comes out at least 1.  A limit comes out 0,
    so that the statement asks for no rows, exactly when it is an
    infinity or a number other than zero that lies strictly between -1
    and 1. *)
Theorem convertSkipLimit_accepted (s l : option number) :
  ((forall q, s = Some (Finite q) -> (0 <= q)%Q) ->
   0 <= Integer_value (skip_int (_convertSkipLimit_number (bounds s l)))) /\
  ((forall q, l = Some (Finite q) -> (0 <= q)%Q) ->
   0 <= Integer_value (limit_int (_convertSkipLimit_number (bounds s l)))) /\
  ((forall q, l = Some (Finite q) -> (q == 0)%Q \/ (1 <= q)%Q) ->
   (forall negative, l <> Some (Infinity negative)) ->
   1 <= Integer_value (limit_int (_convertSkipLimit_number (bounds s l)))) /\
  (Integer_value (limit_int (_convertSkipLimit_number (bounds s l))) = 0 <->
   (exists negative, l = Some (Infinity negative)) \/
   (exists q, l = Some (Finite q) /\ ~ (q == 0)%Q /\ (- 1 < q)%Q /\ (q < 1)%Q)).
Proof.
  unfold _convertSkipLimit_number, bounds. cbn [skip_int limit_int skip_number limit_number].
  rewrite !normalized_value.
  split; [| split; [| split]].
  - intros Hs. destruct s as [[q | | negative] |]; try lia.
    pose proof (truncate_nonneg q (Hs q eq_refl)).
    destruct (Qnum q =? 0)%Z; lia.
  - intros Hl. destruct l as [[q | | negative] |]; try lia.
    pose proof (truncate_nonneg q (Hl q eq_refl)).
    destruct (Qnum q =? 0)%Z; lia.
  - intros Hl Hfinite. destruct l as [[q | | negative] |]; try lia.
    + destruct (Z.eqb_spec (Qnum q) 0) as [E | E]; [lia |].
      destruct (Hl q eq_refl) as [Hz | Hone].
      * unfold Qeq in Hz. cbn in Hz. lia.
      * pose proof (truncate_positive q Hone). lia.
    + now destruct (Hfinite negative).
  - destruct l as [[q | | negative] |].
    + destruct (Z.eqb_spec (Qnum q) 0) as [E | E].
      * split; [lia |]. intros [[negative H] | [q' (H & Hnz & _)]]; [discriminate |].
        injection H as <-. exfalso. apply Hnz. unfold Qeq. cbn. lia.
      * pose proof (truncate_zero q) as Hzero. split.
        -- intros H. right. exists q. split; [reflexivity |]. split.
           ++ unfold Qeq. cbn. lia.
           ++ apply Hzero. lia.
        -- intros [[negative H] | [q' (H & _ & Hlo & Hhi)]]; [discriminate |].
           injection H as <-. assert (truncate q = 0) by (apply Hzero; now split). lia.
    + split; [lia |].
      intros [[negative H] | [q (H & _)]]; discriminate H.
    + split; [| reflexivity]. intros _. left. now exists negative.
    + split; [lia |].
      intros [[negative H] | [q (H & _)]]; discriminate H.
Qed.

Lemma convertSkipLimit_accepted_witness :
  Integer_value (limit_int (_convertSkipLimit_number
                              (bounds None (Some (Finite (1 # 2)))))) = 0 /\
  1 <= Integer_value (limit_int (_convertSkipLimit_number
                                   (bounds None (Some (integer (2 ^ 70)))))).
Proof.
  split.
  - destruct (convertSkipLimit_accepted None (Some (Finite (1 # 2)))) as (_ & _ & _ & Hzero).
    apply Hzero. right. exists (1 # 2). repeat split; discriminate.
  - destruct (convertSkipLimit_accepted None (Some (integer (2 ^ 70)))) as (_ & _ & Hone & _).
    apply Hone.
    + intros q H. injection H as <-. right. discriminate.
    + discriminate.
Defined.

(* ===================================================================== *)
(** ** Lists of results, and [merge] after [create] *)
(* ===================================================================== *)

Lemma map_props_column (T : Type) (f : bag -> T) (name : string) (ns : list node) :
  map (fun r => f (props_column r name))
      (map toObject (records (graph_result name ns))) =
  map (fun n => f (node_props n)) ns.
Proof.
  unfold graph_result. cbn [records]. rewrite !map_map. apply map_ext.
  intros n. cbn [toObject]. now rewrite props_column_here.
Qed.

(** X19. [delete], [findAll] and [findBy] return one object for every
    row of the answer, in the order of the rows: the properties found
    under the column the statement names ([deleted], [matched]), passed
    through [fromNeo4j]; an empty answer gives the empty list, not an
    error. *)
Theorem list_operations_return_every_row (T : Type) (self : Neo4jModelService T)
    (ns : list node) :
  logger_returns self ->
  (forall props,
      run (neo4jService self) (cypher (deleteQuery self props))
          (options (deleteQuery self props)) = Ok (graph_result "deleted" ns) ->
      delete self props = Ok (map (fun n => fromNeo4j self (node_props n)) ns)) /\
  (forall pp,
      run (neo4jService self) (cypher (findAllQuery self pp))
          (options (findAllQuery self pp)) = Ok (graph_result "matched" ns) ->
      findAll self pp = Ok (map (fun n => fromNeo4j self (node_props n)) ns)) /\
  (forall fp,
      run (neo4jService self) (cypher (findByQuery self fp))
          (options (findByQuery self fp)) = Ok (graph_result "matched" ns) ->
      findBy self fp = Ok (map (fun n => fromNeo4j self (node_props n)) ns)).
Proof.
  intros Hq. repeat split; intros x Hrun.
  - unfold delete. rewrite Hq. cbn [bind]. cbv zeta.
    rewrite (runWithDebug_answer _ _ _ _ Hq Hrun). cbn [bind].
    now rewrite map_props_column.
  - unfold findAll. rewrite Hq. cbn [bind]. cbv zeta.
    rewrite (runWithDebug_answer _ _ _ _ Hq Hrun). cbn [bind].
    now rewrite map_props_column.
  - unfold findBy. rewrite Hq. cbn [bind]. cbv zeta.
    rewrite (runWithDebug_answer _ _ _ _ Hq Hrun). cbn [bind].
    now rewrite map_props_column.
Qed.

Lemma list_operations_return_every_row_witness :
  delete (person_service (answering [[("deleted", CProps [("name", str "red blue red")])];
                                     [("deleted", CProps [("name", str "blue")])]]) None)
         [("name", str "blue")] =
  Ok [[("name", str "red blue red")]; [("name", str "blue")]].
Proof.
  destruct (list_operations_return_every_row bag
              (person_service
                 (answering [[("deleted", CProps [("name", str "red blue red")])];
                             [("deleted", CProps [("name", str "blue")])]]) None)
              [person 1 "red blue red"; person 2 "blue"] (fun _ => eq_refl))
    as (Hdelete & _).
  apply (Hdelete [("name", str "blue")]). reflexivity.
Defined.


